(** * Knowledge importer and embedding backfill: a shallow embedding

    The development follows [tools/import-knowledge.py] (chunker, store
    schema, importers) and [tools/embed-knowledge.py] (embedding worker
    and the orchestrating retry loop). *)

From Stdlib Require Import ZArith NArith List Lia Bool String Ascii.
From Stdlib Require SpecFloat.
From stdpp Require Import base decidable option list gmap strings.

Open Scope nat_scope.

(** ** Python strings

    A Python [str] is a sequence of Unicode code points; [len] counts
    code points.  A code point is kept as a number. *)

Module Py.

Definition char := N.
Definition str := list char.

(** An ASCII literal of the source, as a [str]. *)
Definition lit (s : string) : str :=
  List.map N_of_ascii (list_ascii_of_string s).

Definition NL : char := 10%N.
Definition SP : char := 32%N.
Definition DOT : char := 46%N.

(** [bool(s)]: a string is truthy when it is not empty. *)
Definition truthy {A} (s : list A) : bool :=
  match s with [] => false | _ :: _ => true end.

(** Whitespace as [str.strip()] understands it (CPython's
    [Py_UNICODE_ISSPACE]). *)
Definition isspace (c : char) : bool :=
  ((9 <=? c) && (c <=? 13) || (28 <=? c) && (c <=? 32)
   || (c =? 133) || (c =? 160) || (c =? 5760)
   || (8192 <=? c) && (c <=? 8202)
   || (c =? 8232) || (c =? 8233) || (c =? 8239) || (c =? 8287)
   || (c =? 12288))%N.

Fixpoint lstrip (s : str) : str :=
  match s with
  | [] => []
  | c :: s' => if isspace c then lstrip s' else s
  end.

Definition rstrip (s : str) : str := rev (lstrip (rev s)).

(** [s.strip()] *)
Definition strip (s : str) : str := rstrip (lstrip s).

Fixpoint startswith (s p : str) : bool :=
  match p, s with
  | [], _ => true
  | _ :: _, [] => false
  | a :: p', c :: s' => (a =? c)%N && startswith s' p'
  end.

(** [s.split(sep)] for a non-empty [sep]: a left-to-right scan for
    non-overlapping occurrences.  [skip] counts the characters of a matched
    separator still to pass over, [cur] is the piece being read. *)
Fixpoint split_scan (sep : str) (skip : nat) (cur : str) (s : str) : list str :=
  match s with
  | [] => [cur]
  | c :: s' =>
      match skip with
      | S k => split_scan sep k cur s'
      | O =>
          if startswith s sep
          then cur :: split_scan sep (length sep - 1) [] s'
          else split_scan sep 0 (cur ++ [c]) s'
      end
  end.

Definition split (s sep : str) : list str := split_scan sep 0 [] s.

(** [s.replace(old, new)] for a non-empty [old]. *)
Fixpoint replace_scan (old new : str) (skip : nat) (s : str) : str :=
  match s with
  | [] => []
  | c :: s' =>
      match skip with
      | S k => replace_scan old new k s'
      | O =>
          if startswith s old
          then new ++ replace_scan old new (length old - 1) s'
          else c :: replace_scan old new 0 s'
      end
  end.

Definition replace (s old new : str) : str := replace_scan old new 0 s.

(** [sep.join(parts)] *)
Fixpoint join (sep : str) (parts : list str) : str :=
  match parts with
  | [] => []
  | [p] => p
  | p :: rest => p ++ sep ++ join sep rest
  end.

End Py.

Import Py.

(** ** The chunker: [chunk_text] *)

Module Chunker.

(** The paragraphs of a text:
    [[p.strip() for p in text.split("\n\n") if p.strip()]]. *)
Definition paragraphs (text : str) : list str :=
  List.map strip (List.filter (fun p => truthy (strip p)) (split text [NL; NL])).

(** The sentence-like units of a long paragraph:
    [para.replace(". ", ".\n").split("\n")]. *)
Definition sentences (para : str) : list str :=
  split (replace para [DOT; SP] [DOT; NL]) [NL].

(** [chunks.append(b)] guarded by [if b:]. *)
Definition flush (chunks : list str) (b : str) : list str :=
  if truthy b then chunks ++ [b] else chunks.

(** One turn of the inner [for sent in sentences] loop; the state is
    [(chunks, sent_buf)]. *)
Definition pack_sentence (st : list str * str) (sent : str) : list str * str :=
  let '(chunks, sent_buf) := st in
  if 600 <? length sent_buf + length sent
  then (flush chunks sent_buf, sent)
  else (chunks, sent_buf ++ (if truthy sent_buf then [SP] else []) ++ sent).

(** The branch for a paragraph longer than 800 characters, after the
    buffer was flushed: pack the sentences, then emit what is left. *)
Definition split_long (chunks : list str) (para : str) : list str :=
  let '(chunks', sent_buf) := fold_left pack_sentence (sentences para) (chunks, []) in
  flush chunks' sent_buf.

(** One turn of the outer [for para in paragraphs] loop; the state is
    [(chunks, buffer)]. *)
Definition step_para (st : list str * str) (para : str) : list str * str :=
  let '(chunks, buffer) := st in
  if 800 <? length para
  then (split_long (flush chunks buffer) para, [])
  else if length buffer + length para <? 100
  then (chunks, buffer ++ (if truthy buffer then [NL; NL] else []) ++ para)
  else (flush chunks buffer, para).

Definition chunk_paragraphs (paras : list str) : list str :=
  let '(chunks, buffer) := fold_left step_para paras ([], []) in
  flush chunks buffer.

Definition chunk_text (text : str) : list str :=
  chunk_paragraphs (paragraphs text).

End Chunker.

Import Chunker.

Example split_blank_lines :
  split (lit "a

b") [NL; NL] = [lit "a"; lit "b"].
Proof. reflexivity. Qed.

(** *** Chunk sizes *)

Section ChunkBound.

(** An invariant of a [fold_left] that holds initially and is kept by every
    turn holds at the end. *)
Lemma fold_left_invariant {A B} (f : A -> B -> A) (I : A -> Prop) (l : list B) :
  forall a, I a -> (forall a b, b ∈ l -> I a -> I (f a b)) -> I (fold_left f l a).
Proof.
  induction l as [|b l IH]; intros a Ha Hstep; simpl; [exact Ha|].
  apply IH.
  - apply Hstep; [left | exact Ha].
  - intros a' b' Hb'. apply Hstep. by right.
Qed.

Lemma Forall_flush (P : str -> Prop) chunks b :
  Forall P chunks -> (b <> [] -> P b) -> Forall P (flush chunks b).
Proof.
  intros Hc Hb. unfold flush. destruct b as [|c b]; simpl; [exact Hc|].
  apply Forall_app; split; [exact Hc|]. constructor; [|constructor].
  by apply Hb.
Qed.

(** What a fragment can be: short enough, or one paragraph of at most 800
    characters as it stands, or one sentence-like unit, as it stands, of a
    paragraph of more than 800 characters. *)
Definition fragment_ok (bound : nat) (paras : list str) (f : str) : Prop :=
  length f <= bound \/
  (f ∈ paras /\ length f <= 800) \/
  exists p, p ∈ paras /\ 800 < length p /\ f ∈ sentences p.

Lemma pack_sentence_ok bound paras p chunks sent_buf sent :
  601 <= bound -> p ∈ paras -> 800 < length p -> sent ∈ sentences p ->
  Forall (fragment_ok bound paras) chunks ->
  fragment_ok bound paras sent_buf ->
  let st := pack_sentence (chunks, sent_buf) sent in
  Forall (fragment_ok bound paras) st.1 /\ fragment_ok bound paras st.2.
Proof.
  intros Hb Hp Hlong Hs Hc Hbuf. unfold pack_sentence.
  destruct (600 <? length sent_buf + length sent) eqn:E; simpl.
  - split.
    + apply Forall_flush; auto.
    + right; right. exists p. split; [exact Hp|]. split; [exact Hlong|exact Hs].
  - split; [exact Hc|]. apply Nat.ltb_ge in E. left.
    rewrite !length_app. destruct sent_buf; simpl in *; lia.
Qed.

Lemma split_long_ok bound paras chunks p :
  601 <= bound -> p ∈ paras -> 800 < length p ->
  Forall (fragment_ok bound paras) chunks ->
  Forall (fragment_ok bound paras) (split_long chunks p).
Proof.
  intros Hb Hp Hlong Hc. unfold split_long.
  pose (I := fun st : list str * str =>
    Forall (fragment_ok bound paras) st.1 /\ fragment_ok bound paras st.2).
  assert (HI : I (fold_left pack_sentence (sentences p) (chunks, []))).
  { apply fold_left_invariant.
    - split; [exact Hc|]. left; simpl; lia.
    - intros [c b] s Hs [H1 H2]. by eapply pack_sentence_ok. }
  destruct (fold_left pack_sentence (sentences p) (chunks, [])) as [c b].
  destruct HI as [H1 H2]. apply Forall_flush; auto.
Qed.

Lemma step_para_ok bound paras chunks buffer p :
  601 <= bound -> p ∈ paras ->
  Forall (fragment_ok bound paras) chunks ->
  fragment_ok bound paras buffer ->
  let st := step_para (chunks, buffer) p in
  Forall (fragment_ok bound paras) st.1 /\ fragment_ok bound paras st.2.
Proof.
  intros Hb Hp Hc Hbuf. unfold step_para.
  destruct (800 <? length p) eqn:E1; simpl.
  - apply Nat.ltb_lt in E1. split; [|left; simpl; lia].
    apply split_long_ok; auto. apply Forall_flush; auto.
  - apply Nat.ltb_ge in E1.
    destruct (length buffer + length p <? 100) eqn:E2; simpl.
    + split; [exact Hc|]. apply Nat.ltb_lt in E2. left.
      rewrite !length_app. destruct buffer; simpl in *; lia.
    + split; [apply Forall_flush; auto|]. right; left. split; [exact Hp|exact E1].
Qed.

(** Every fragment is at most 601 characters long, or is a single paragraph of
    at most 800 characters passed through as it is, or is a single
    sentence-like unit, passed through as it is, of a paragraph of more than
    800 characters. *)
Theorem chunk_text_fragments text :
  Forall (fragment_ok 601 (paragraphs text)) (chunk_text text).
Proof.
  unfold chunk_text, chunk_paragraphs.
  set (paras := paragraphs text).
  pose (I := fun st : list str * str =>
    Forall (fragment_ok 601 paras) st.1 /\ fragment_ok 601 paras st.2).
  assert (HI : I (fold_left step_para paras ([], []))).
  { apply fold_left_invariant.
    - split; [constructor|]. left; simpl; lia.
    - intros [c b] p Hp [H1 H2]. by eapply step_para_ok. }
  destruct (fold_left step_para paras ([], [])) as [c b].
  destruct HI as [H1 H2]. apply Forall_flush; auto.
Qed.

End ChunkBound.

(** *** The two examples of the specification *)

Example chunk_two_short_paragraphs :
  chunk_text (lit "Short line.

Another short line.") = [lit "Short line.

Another short line."].
Proof. vm_compute. reflexivity. Qed.

Example chunk_unsplittable_paragraph :
  chunk_text (replicate 1000 (N_of_ascii "x")) = [replicate 1000 (N_of_ascii "x")].
Proof. vm_compute. reflexivity. Qed.

(** *** Two sentences that fill the sentence buffer exactly

    A paragraph of 902 characters: a sentence of 300 characters, a second
    sentence of 300 characters and a last unit of 300 characters. *)

Definition sentence_a : str := replicate 299 (N_of_ascii "a") ++ [DOT].
Definition sentence_b : str := replicate 299 (N_of_ascii "b") ++ [DOT].
Definition unit_c : str := replicate 300 (N_of_ascii "c").
Definition packed_paragraph : str :=
  sentence_a ++ [SP] ++ sentence_b ++ [SP] ++ unit_c.

(** C3: the chunker joins the two 300-character sentences of
    [packed_paragraph] with a space into one fragment of 601 characters: the
    fragment is longer than the ceiling of 600 although it is neither a single
    paragraph nor a single sentence-like unit. *)
Theorem chunk_text_packed_paragraph :
  paragraphs packed_paragraph = [packed_paragraph] /\
  sentences packed_paragraph = [sentence_a; sentence_b; unit_c] /\
  chunk_text packed_paragraph = [sentence_a ++ [SP] ++ sentence_b; unit_c] /\
  length (sentence_a ++ [SP] ++ sentence_b) = 601 /\
  sentence_a ++ [SP] ++ sentence_b <> packed_paragraph /\
  ~ sentence_a ++ [SP] ++ sentence_b ∈ sentences packed_paragraph.
Proof.
  assert (Hs : sentences packed_paragraph = [sentence_a; sentence_b; unit_c])
    by (vm_compute; reflexivity).
  split; [vm_compute; reflexivity|].
  split; [exact Hs|].
  split; [vm_compute; reflexivity|].
  split; [vm_compute; reflexivity|].
  split.
  - intros H. apply (f_equal length) in H. vm_compute in H. discriminate.
  - rewrite Hs. intros H.
    assert (Hl : Forall (fun s => length s = 300) [sentence_a; sentence_b; unit_c]).
    { repeat constructor. }
    rewrite Forall_forall in Hl. apply Hl in H. vm_compute in H. discriminate.
Qed.

(** ** The store: schema of [init_db] *)

Module Store.

(** [str(uuid.uuid4())]: the 128-bit value stands for its text form. *)
Definition uuid := N.

(** A Python float (REAL column, vector component), kept as its binary64 bit
    pattern: sign in bit 63, exponent in bits 62..52, fraction below. *)
Definition float := Z.

(** A packed vector component: the 4 bytes of a C [float], kept as the
    binary32 bit pattern they hold (sign in bit 31, exponent in bits 30..23,
    fraction below). *)
Definition float32 := Z.

(** The BLOB written by [struct.pack(f"{dim}f", ...)]: one entry per packed
    component, 4 bytes each. *)
Definition blob := list float32.

(** A row of [documents]. *)
Record document := Document {
  doc_id : uuid;
  filename : str;
  import_date : float;
  source_type : str;
  source_path : option str;
  source_mod_date : option float
}.

(** A row of [chunks], with the implicit integer [rowid] of the table. *)
Record chunk := Chunk {
  rowid : Z;
  chunk_id : uuid;
  document_id : uuid;
  text : str;
  vector : option blob
}.

(** The tables and the external-content full-text index [chunks_fts], which
    is keyed by the rowid of the chunk. *)
Record database := Database {
  documents : list document;
  chunks : list chunk;
  chunks_fts : gmap Z str
}.

Definition empty_db : database := Database [] [] ∅.

(** [init_db]: every object is created [IF NOT EXISTS], so an existing store
    is opened as it is and an absent one starts empty. *)
Definition init_db (file : option database) : database :=
  match file with
  | Some db => db
  | None => empty_db
  end.

(** [INSERT INTO documents ...].  Identifiers come from [uuid4] and are taken
    not to collide with stored keys: the failure of the primary key check is
    not modelled. *)
Definition sql_insert_document (db : database) (d : document) : database :=
  Database (documents db ++ [d]) (chunks db) (chunks_fts db).

(** The rowid given to a new row: one more than the largest in the table. *)
Definition next_rowid (cs : list chunk) : Z :=
  (1 + fold_right Z.max 0 (List.map rowid cs))%Z.

(** [INSERT INTO chunks (id, document_id, text, vector) VALUES (?, ?, ?, NULL)]
    followed by the trigger [chunks_ai], which adds the row to the index. *)
Definition sql_insert_chunk (db : database) (id doc : uuid) (t : str) : database :=
  let r := next_rowid (chunks db) in
  Database (documents db)
           (chunks db ++ [Chunk r id doc t None])
           (<[r := t]> (chunks_fts db)).

Definition set_vector (b : blob) (c : chunk) : chunk :=
  Chunk (rowid c) (chunk_id c) (document_id c) (text c) (Some b).

(** [UPDATE chunks SET vector = ? WHERE id = ?]; the schema has no trigger on
    update, and a statement that matches no row changes nothing and raises
    nothing. *)
Definition sql_update_vector (db : database) (b : blob) (id : uuid) : database :=
  Database (documents db)
           (List.map (fun c => if decide (chunk_id c = id) then set_vector b c else c)
                     (chunks db))
           (chunks_fts db).

(** The trigger [chunks_ad] for one deleted row: the ['delete'] command of the
    index removes the entry of that rowid. *)
Definition chunks_ad (fts : gmap Z str) (old : chunk) : gmap Z str :=
  delete (rowid old) fts.

(** [DELETE FROM documents WHERE id = ?] with [PRAGMA foreign_keys = ON]: the
    rows of [chunks] that reference the document go with it
    ([ON DELETE CASCADE]), and [chunks_ad] fires for each of them, all within
    the one statement. *)
Definition sql_delete_document (db : database) (d : uuid) : database :=
  let gone := List.filter (fun c => bool_decide (document_id c = d)) (chunks db) in
  let kept := List.filter (fun c => negb (bool_decide (document_id c = d))) (chunks db) in
  Database (List.filter (fun x => negb (bool_decide (doc_id x = d))) (documents db))
           kept
           (fold_left chunks_ad gone (chunks_fts db)).

(** The count of the rows [WHERE vector IS NULL]. *)
Definition unembedded (c : chunk) : bool :=
  match vector c with None => true | Some _ => false end.

Definition count_unembedded (db : database) : Z :=
  Z.of_nat (length (List.filter unembedded (chunks db))).

(** [SELECT id, text FROM chunks WHERE vector IS NULL LIMIT ?] *)
Definition select_unembedded (db : database) (limit : nat) : list (uuid * str) :=
  take limit (List.map (fun c => (chunk_id c, text c)) (List.filter unembedded (chunks db))).

(** The statements that change a store. *)
Inductive statement :=
| InsertDocument (d : document)
| InsertChunk (id doc : uuid) (t : str)
| UpdateVector (b : blob) (id : uuid)
| DeleteDocument (d : uuid).

Definition execute (db : database) (s : statement) : database :=
  match s with
  | InsertDocument d => sql_insert_document db d
  | InsertChunk id doc t => sql_insert_chunk db id doc t
  | UpdateVector b id => sql_update_vector db b id
  | DeleteDocument d => sql_delete_document db d
  end.

Definition executescript (db : database) (ss : list statement) : database :=
  fold_left execute ss db.

End Store.

Import Store.

(** *** The full-text index follows the chunk rows *)

Section FtsSync.

(** The index and the table [chunks] correspond one to one: rowids identify
    rows, and the index holds exactly one entry per row, under the row's rowid
    and with the row's text. *)
Definition fts_in_sync (db : database) : Prop :=
  NoDup (List.map rowid (chunks db)) /\
  forall r t, chunks_fts db !! r = Some t <->
              exists c, c ∈ chunks db /\ rowid c = r /\ text c = t.

Lemma rowid_lt_next (cs : list chunk) (c : chunk) :
  c ∈ cs -> (rowid c < next_rowid cs)%Z.
Proof.
  unfold next_rowid. induction 1 as [c cs|c c' cs _ IH]; simpl; lia.
Qed.

Lemma next_rowid_fresh (cs : list chunk) : ~ In (next_rowid cs) (List.map rowid cs).
Proof.
  intros H. apply in_map_iff in H as (c & Hr & Hc).
  apply list_elem_of_In, rowid_lt_next in Hc. lia.
Qed.

Lemma rowid_identifies (cs : list chunk) (c c' : chunk) :
  NoDup (List.map rowid cs) -> c ∈ cs -> c' ∈ cs -> rowid c = rowid c' -> c = c'.
Proof.
  induction cs as [|x cs IH]; simpl; intros Hnd Hc Hc' Hr.
  - by apply elem_of_nil in Hc.
  - apply NoDup_cons in Hnd as [Hx Hnd].
    apply elem_of_cons in Hc as [->|Hc]; apply elem_of_cons in Hc' as [->|Hc'].
    + done.
    + exfalso. apply Hx. rewrite Hr. apply list_elem_of_In, in_map, list_elem_of_In, Hc'.
    + exfalso. apply Hx. rewrite <- Hr. apply list_elem_of_In, in_map, list_elem_of_In, Hc.
    + by apply IH.
Qed.

Lemma fts_in_sync_empty : fts_in_sync empty_db.
Proof.
  split; [constructor|]. intros r t; simpl. split.
  - intros H. by rewrite lookup_empty in H.
  - intros (c & Hc & _). by apply elem_of_nil in Hc.
Qed.

Lemma fts_in_sync_insert_document db d :
  fts_in_sync db -> fts_in_sync (sql_insert_document db d).
Proof. intros H; exact H. Qed.

Lemma fts_in_sync_insert_chunk db id doc t :
  fts_in_sync db -> fts_in_sync (sql_insert_chunk db id doc t).
Proof.
  intros [Hnd Hs]. split; simpl.
  - rewrite map_app; simpl. apply NoDup_app. split; [exact Hnd|]. split.
    + intros r Hr Hr'. apply list_elem_of_singleton in Hr'. subst r.
      by apply list_elem_of_In, next_rowid_fresh in Hr.
    + apply NoDup_singleton.
  - intros r t'. destruct (decide (next_rowid (chunks db) = r)) as [<-|Hne].
    + rewrite lookup_insert_eq. split.
      * intros [= <-]. eexists. split; [apply elem_of_app; right; by left|done].
      * intros (c & Hc & Hr & Ht). apply elem_of_app in Hc as [Hc|Hc].
        -- apply rowid_lt_next in Hc. lia.
        -- apply list_elem_of_singleton in Hc. subst c. simpl in Ht. by subst.
    + rewrite lookup_insert_ne by done. rewrite Hs. split.
      * intros (c & Hc & Hr & Ht). exists c. split; [apply elem_of_app; by left|done].
      * intros (c & Hc & Hr & Ht). apply elem_of_app in Hc as [Hc|Hc].
        -- by exists c.
        -- apply list_elem_of_singleton in Hc. subst c. simpl in Hr. done.
Qed.

Lemma fts_in_sync_update_vector db b id :
  fts_in_sync db -> fts_in_sync (sql_update_vector db b id).
Proof.
  intros [Hnd Hs].
  set (f := fun c => if decide (chunk_id c = id) then set_vector b c else c).
  assert (Hr : forall c, rowid (f c) = rowid c) by (intros c; unfold f; by case_decide).
  assert (Ht : forall c, text (f c) = text c) by (intros c; unfold f; by case_decide).
  split; simpl; fold f.
  - rewrite map_map. erewrite map_ext; [exact Hnd|]. intros c; apply Hr.
  - intros r t. rewrite Hs. split.
    + intros (c & Hc & <- & <-). exists (f c). split; [|by rewrite Hr, Ht].
      apply list_elem_of_In, in_map, list_elem_of_In, Hc.
    + intros (c' & Hc' & <- & <-). apply list_elem_of_In, in_map_iff in Hc' as (c & <- & Hc).
      exists c. split; [by apply list_elem_of_In|by rewrite Hr, Ht].
Qed.

(** What the index holds once [chunks_ad] has fired for the rows [gone]. *)
Lemma lookup_chunks_ad (gone : list chunk) (fts : gmap Z str) (r : Z) :
  fold_left chunks_ad gone fts !! r =
  if decide (r ∈ List.map rowid gone) then None else fts !! r.
Proof.
  revert fts. induction gone as [|c gone IH]; intros fts; simpl.
  - destruct (decide (r ∈ [])) as [H|H]; [by apply elem_of_nil in H|done].
  - rewrite IH. unfold chunks_ad.
    destruct (decide (r ∈ List.map rowid gone)) as [H1|H1];
      destruct (decide (r ∈ rowid c :: List.map rowid gone)) as [H2|H2];
      try done.
    + exfalso. apply H2. by right.
    + apply elem_of_cons in H2 as [->|H2]; [|done]. apply lookup_delete_eq.
    + apply lookup_delete_ne. intros Heq. apply H2. rewrite <- Heq. by left.
Qed.

Lemma NoDup_map_filter {A B} (f : A -> B) (p : A -> bool) (l : list A) :
  NoDup (List.map f l) -> NoDup (List.map f (List.filter p l)).
Proof.
  induction l as [|x l IH]; simpl; [done|]. intros Hnd.
  apply NoDup_cons in Hnd as [Hx Hnd]. destruct (p x); simpl; [|by apply IH].
  apply NoDup_cons. split; [|by apply IH].
  intros H. apply Hx. apply list_elem_of_In in H. apply list_elem_of_In.
  apply in_map_iff in H as (y & Hy & Hin). apply in_map_iff. exists y.
  apply filter_In in Hin as [Hin _]. done.
Qed.

Lemma fts_in_sync_delete_document db d :
  fts_in_sync db -> fts_in_sync (sql_delete_document db d).
Proof.
  intros [Hnd Hs]. split; simpl.
  - by apply NoDup_map_filter.
  - intros r t. rewrite lookup_chunks_ad. case_decide as Hg.
    + split; [done|]. intros (c & Hc & Hr & Ht). exfalso.
      apply list_elem_of_In, in_map_iff in Hg as (c' & Hr' & Hc').
      apply filter_In in Hc' as [Hc' Hd']. apply bool_decide_eq_true in Hd'.
      apply list_elem_of_In, filter_In in Hc as [Hc Hd].
      apply negb_true_iff, bool_decide_eq_false in Hd.
      assert (c = c'); [|by subst].
      eapply rowid_identifies; eauto using list_elem_of_In; try congruence;
        by apply list_elem_of_In.
    + rewrite Hs. split.
      * intros (c & Hc & Hr & Ht). exists c. split; [|done].
        apply list_elem_of_In, filter_In. split; [by apply list_elem_of_In|].
        apply negb_true_iff, bool_decide_eq_false. intros Hd. apply Hg.
        apply list_elem_of_In, in_map_iff. exists c. split; [done|].
        apply filter_In. split; [by apply list_elem_of_In|by apply bool_decide_eq_true].
      * intros (c & Hc & Hr & Ht). exists c. split; [|done].
        apply list_elem_of_In, filter_In in Hc as [Hc _]. by apply list_elem_of_In.
Qed.

Lemma fts_in_sync_execute db s :
  fts_in_sync db -> fts_in_sync (execute db s).
Proof.
  destruct s; simpl;
    auto using fts_in_sync_insert_document, fts_in_sync_insert_chunk,
               fts_in_sync_update_vector, fts_in_sync_delete_document.
Qed.

Lemma fts_in_sync_executescript ss db :
  fts_in_sync db -> fts_in_sync (executescript db ss).
Proof.
  unfold executescript. intros H. apply fold_left_invariant; [exact H|].
  intros a s _. apply fts_in_sync_execute.
Qed.

(** C8: in every store reached from the empty one by inserts, vector updates
    and document deletions the full-text index is in one-to-one correspondence
    with the chunk rows; deleting a document removes, in that one statement,
    the document, every chunk that references it and the index entry of each
    such chunk, and keeps every other chunk with its entry. *)
Theorem fts_in_sync_after_every_statement (ss : list statement) :
  let db := executescript empty_db ss in
  fts_in_sync db /\
  forall d,
    let db' := sql_delete_document db d in
    fts_in_sync db' /\
    Forall (fun x => doc_id x <> d) (documents db') /\
    Forall (fun c => document_id c <> d) (chunks db') /\
    Forall (fun c => if decide (document_id c = d)
                     then chunks_fts db' !! rowid c = None
                     else c ∈ chunks db' /\ chunks_fts db' !! rowid c = Some (text c))
           (chunks db).
Proof.
  intros db.
  assert (Hdb : fts_in_sync db) by apply fts_in_sync_executescript, fts_in_sync_empty.
  split; [exact Hdb|]. intros d db'.
  assert (Hdb' : fts_in_sync db') by by apply fts_in_sync_delete_document.
  split; [exact Hdb'|]. split; [|split].
  - apply Forall_forall. intros x Hx. simpl in Hx.
    apply list_elem_of_In, filter_In in Hx as [_ Hx].
    by apply negb_true_iff, bool_decide_eq_false in Hx.
  - apply Forall_forall. intros c Hc. simpl in Hc.
    apply list_elem_of_In, filter_In in Hc as [_ Hc].
    by apply negb_true_iff, bool_decide_eq_false in Hc.
  - apply Forall_forall. intros c Hc. case_decide as Hd.
    + destruct (chunks_fts db' !! rowid c) as [t|] eqn:E; [|done]. exfalso.
      apply Hdb' in E as (c' & Hc' & Hr & _).
      simpl in Hc'. apply list_elem_of_In, filter_In in Hc' as [Hc' Hd'].
      apply negb_true_iff, bool_decide_eq_false in Hd'.
      assert (c' = c); [|by subst].
      destruct Hdb as [Hnd _]. eapply rowid_identifies; eauto.
      by apply list_elem_of_In.
    + assert (Hin : c ∈ chunks db').
      { simpl. apply list_elem_of_In, filter_In. split; [by apply list_elem_of_In|].
        by apply negb_true_iff, bool_decide_eq_false. }
      split; [exact Hin|]. apply Hdb'. by exists c.
Qed.

End FtsSync.

(** ** The format [f] of [struct.pack]

    In native mode [struct.pack] stores a Python float under the format
    character [f] as the C conversion [(float)x] of its double: the value is
    rounded to the nearest binary32 number, ties to even, a magnitude beyond
    the binary32 range becomes an infinity and one below it a subnormal number
    or a zero; nothing is raised. *)

Module Struct.

Import SpecFloat.

(** The value a binary64 bit pattern stands for. *)
Definition decode_double (x : float) : spec_float :=
  let s := Z.testbit x 63 in
  let e := Z.land (Z.shiftr x 52) 2047 in
  let m := Z.land x (2 ^ 52 - 1) in
  if (e =? 2047)%Z then (if (m =? 0)%Z then S754_infinity s else S754_nan)
  else
    match (if (e =? 0) then m else m + 2 ^ 52)%Z with
    | Zpos p => S754_finite s p (Z.max e 1 - 1075)
    | _ => S754_zero s
    end.

(** [(float)x]: rounding to 24 bits of precision, exponents up to 127. *)
Definition to_float (v : spec_float) : spec_float :=
  match v with
  | S754_finite s m e => binary_round 24 128 s m e
  | _ => v
  end.

Definition sign_bit (s : bool) : Z := if s then (2 ^ 31)%Z else 0%Z.

(** The binary32 bit pattern of a value that [to_float] gives. *)
Definition encode_float (v : spec_float) : float32 :=
  match v with
  | S754_zero s => sign_bit s
  | S754_infinity s => sign_bit s + 255 * 2 ^ 23
  | S754_nan => 255 * 2 ^ 23 + 2 ^ 22
  | S754_finite s m e =>
      if (Zpos m <? 2 ^ 23)%Z then sign_bit s + Zpos m
      else sign_bit s + (e + 150) * 2 ^ 23 + (Zpos m - 2 ^ 23)
  end%Z.

(** One component under the format [f].  A NaN keeps its sign and the upper
    bits of its payload and comes out quiet. *)
Definition pack_f (x : float) : float32 :=
  match decode_double x with
  | S754_nan =>
      (sign_bit (Z.testbit x 63) + 255 * 2 ^ 23 + 2 ^ 22
       + Z.land (Z.shiftr x 29) (2 ^ 22 - 1))%Z
  | v => encode_float (to_float v)
  end.

End Struct.

Import Struct.

(** ** The embedding worker: [WORKER_SCRIPT] *)

Module Worker.

(** The embedding capability ([NLContextualEmbedding]) as the worker uses it:
    [loadWithError] is [None] when the model loaded and [Some err] with the
    text of the error otherwise; [sentenceEmbeddingVector] gives no vector
    ([None]) or a sequence of floats. *)
Record embedding := Embedding {
  loadWithError : option str;
  sentenceVectorDimension : nat;
  sentenceEmbeddingVector : str -> option (list float)
}.

(** What [json.loads] makes of the one line a worker prints, for the two
    shapes the script prints and for output that is no JSON at all.  JSON of
    any other shape is not part of the model. *)
Inductive worker_stdout :=
| Counts (embedded processed : Z)
| ErrorPayload (msg : str)
| Unparseable.

(** [text[:512]], the argument handed to the capability. *)
Definition embedding_input (t : str) : str := take 512 t.

(** [if vec and len(vec) == dim] *)
Definition accepts (dim : nat) (vec : option (list float)) : bool :=
  match vec with
  | Some v => truthy v && (length v =? dim)
  | None => false
  end.

(** [struct.pack(f"{dim}f", *[float(vec[i]) for i in range(dim)])]: the
    components [vec[0]] to [vec[dim - 1]] are read, then each is stored under
    the format [f]; [None] stands for the [IndexError] of a [vec[i]] out of
    range. *)
Definition pack (dim : nat) (v : list float) : option blob :=
  match mapM (fun i => v !! i) (seq 0 dim) with
  | Some floats => Some (List.map pack_f floats)
  | None => None
  end.

(** One turn of [for chunk_id, text in rows]; the state is [(db, count)], and
    [None] an exception that ends the worker. *)
Definition embed_row (emb : embedding) (dim : nat)
    (st : option (database * Z)) (row : uuid * str) : option (database * Z) :=
  match st with
  | None => None
  | Some (db, count) =>
      let vec := sentenceEmbeddingVector emb (embedding_input row.2) in
      if accepts dim vec then
        match pack dim (default [] vec) with
        | Some b => Some (sql_update_vector db b row.1, (count + 1)%Z)
        | None => None
        end
      else Some (db, count)
  end.

(** A run of the script on the store [db] with batch limit [limit]: the store
    it leaves, its exit status and its output.  An uncaught exception ends the
    process with status 1 before [db.commit()], with nothing on its output. *)
Definition worker_script (emb : embedding) (db : database) (limit : nat)
    : database * Z * worker_stdout :=
  match loadWithError emb with
  | Some err => (db, 1%Z, ErrorPayload err)
  | None =>
      let dim := sentenceVectorDimension emb in
      let rows := select_unembedded db limit in
      match fold_left (embed_row emb dim) rows (Some (db, 0%Z)) with
      | Some (db', count) => (db', 0%Z, Counts count (Z.of_nat (length rows)))
      | None => (db, 1%Z, Unparseable)
      end
  end.

End Worker.

Import Worker.

(** ** The orchestrator: [main] of [embed-knowledge.py] *)

Module Orchestrator.

Definition BATCH_SIZE : nat := 2000.

(** What [subprocess.run(..., timeout=600)] does: it returns the completed
    process, or raises [subprocess.TimeoutExpired]. *)
Inductive run_result :=
| Completed (returncode : Z) (stdout : worker_stdout)
| TimeoutExpired.

(** The effects of the loop that the properties speak of, in order. *)
Inductive event :=
| Spawn
| Sleep (seconds : Z).

(** How [main] ends: by [return] before the loop, by the loop condition, by
    one of the four [break]s, or by an exception nobody catches. *)
Inductive ending :=
| NothingToDo
| Drained
| NoMoreWork
| TooManyFailures
| BadOutput
| WorkerError
| Uncaught.

(** The terminal states of the specification. *)
Inductive terminal := Stopped | Aborted.

Definition terminal_of (e : ending) : option terminal :=
  match e with
  | NothingToDo | Drained | NoMoreWork => Some Stopped
  | TooManyFailures | BadOutput | WorkerError => Some Aborted
  | Uncaught => None
  end.

(** The variables of [main] together with the world outside (store and worker
    processes) and the trace of effects. *)
Record state (W : Type) := State {
  done : Z;
  retries : Z;
  world : W;
  trace : list event
}.
Arguments State {W}.
Arguments done {W}.
Arguments retries {W}.
Arguments world {W}.
Arguments trace {W}.

Definition is_spawn (e : event) : bool :=
  match e with Spawn => true | Sleep _ => false end.

(** The number of dispatch cycles: worker processes started. *)
Definition dispatch_cycles (t : list event) : nat :=
  length (List.filter is_spawn t).

Section Loop.

Context {W : Type}.

(** The count of chunks without a vector, as [main] reads it at the start. *)
Variable query_total : W -> Z.

(** One call of [subprocess.run] with the worker script. *)
Variable subprocess_run : W -> run_result * W.

(** The body of [while done < total]: [inl] when it leaves the loop, [inr]
    when it goes round again. *)
Definition loop_body (s : state W) : (ending * state W) + state W :=
  let '(r, w) := subprocess_run (world s) in
  let s1 := State (done s) (retries s) w (trace s ++ [Spawn]) in
  match r with
  | TimeoutExpired => inl (Uncaught, s1)
  | Completed returncode stdout =>
      if negb (returncode =? 0)%Z then
        let s2 := State (done s1) (retries s1 + 1)%Z w (trace s1) in
        if (retries s2 >? 5)%Z then inl (TooManyFailures, s2)
        else inr (State (done s2) (retries s2) w (trace s2 ++ [Sleep 2]))
      else
        let s2 := State (done s1) 0%Z w (trace s1) in
        match stdout with
        | Unparseable => inl (BadOutput, s2)
        | ErrorPayload _ => inl (WorkerError, s2)
        | Counts embedded processed =>
            if (processed =? 0)%Z then inl (NoMoreWork, s2)
            else inr (State (done s2 + embedded)%Z (retries s2) w (trace s2))
        end
  end.

(** The loop, with [fuel] turns at most; [None] when the fuel runs out. *)
Fixpoint loop (fuel : nat) (total : Z) (s : state W) : option (ending * state W) :=
  if (done s <? total)%Z then
    match fuel with
    | O => None
    | S fuel' =>
        match loop_body s with
        | inl r => Some r
        | inr s' => loop fuel' total s'
        end
    end
  else Some (Drained, s).

Definition main (fuel : nat) (w : W) : option (ending * state W) :=
  let total := query_total w in
  let s := State 0%Z 0%Z w [] in
  if (total =? 0)%Z then Some (NothingToDo, s) else loop fuel total s.

End Loop.

(** The world of the real script: the store, and workers that run
    [WORKER_SCRIPT] with the embedding capability [emb] and never time out. *)
Definition run_worker (emb : embedding) (db : database) : run_result * database :=
  let '(db', returncode, stdout) := worker_script emb db BATCH_SIZE in
  (Completed returncode stdout, db').

Definition backfill (emb : embedding) (fuel : nat) (db : database) :=
  main count_unembedded (run_worker emb) fuel db.

End Orchestrator.

Import Orchestrator.

(** *** How the loop goes round *)

Section LoopFacts.

Context {W : Type}.
Variable query_total : W -> Z.
Variable subprocess_run : W -> run_result * W.

Local Abbreviation loop_body := (loop_body subprocess_run).
Local Abbreviation loop := (loop subprocess_run).
Local Abbreviation main := (main query_total subprocess_run).

Lemma loop_unfold fuel total (s : state W) :
  (done s < total)%Z ->
  loop (S fuel) total s =
  match loop_body s with inl r => Some r | inr s' => loop fuel total s' end.
Proof. intros H. simpl. apply Z.ltb_lt in H. by rewrite H. Qed.

Lemma loop_no_fuel total (s : state W) :
  (done s < total)%Z -> loop 0 total s = None.
Proof. intros H. simpl. apply Z.ltb_lt in H. by rewrite H. Qed.

Lemma loop_drained fuel total (s : state W) :
  (total <= done s)%Z -> loop fuel total s = Some (Drained, s).
Proof.
  intros H. apply Z.ltb_ge in H. destruct fuel; simpl; by rewrite H.
Qed.

(** A timeout leaves the loop by the exception: nothing is counted and
    nothing sleeps. *)
Lemma loop_body_timeout (s : state W) w :
  subprocess_run (world s) = (TimeoutExpired, w) ->
  loop_body s = inl (Uncaught, State (done s) (retries s) w (trace s ++ [Spawn])).
Proof. intros H. unfold Orchestrator.loop_body. by rewrite H. Qed.

(** A worker that exits with a non-zero status is counted; up to the fifth
    in a row the loop sleeps and goes on, the sixth ends it. *)
Lemma loop_body_crash (s : state W) rc out w :
  subprocess_run (world s) = (Completed rc out, w) -> rc <> 0%Z ->
  loop_body s =
  if (retries s + 1 >? 5)%Z
  then inl (TooManyFailures, State (done s) (retries s + 1)%Z w (trace s ++ [Spawn]))
  else inr (State (done s) (retries s + 1)%Z w ((trace s ++ [Spawn]) ++ [Sleep 2])).
Proof.
  intros H Hrc. unfold Orchestrator.loop_body. rewrite H. simpl.
  apply Z.eqb_neq in Hrc. by rewrite Hrc.
Qed.

(** A worker that exits with status 0 and reports counts. *)
Lemma loop_body_counts (s : state W) e p w :
  subprocess_run (world s) = (Completed 0 (Counts e p), w) ->
  loop_body s =
  if (p =? 0)%Z
  then inl (NoMoreWork, State (done s) 0%Z w (trace s ++ [Spawn]))
  else inr (State (done s + e)%Z 0%Z w (trace s ++ [Spawn])).
Proof. intros H. unfold Orchestrator.loop_body. by rewrite H. Qed.

(** The state a turn of the loop leaves, whether it ends the loop or not. *)
Definition state_after (r : (ending * state W) + state W) : state W :=
  match r with inl (_, s) => s | inr s => s end.

Lemma loop_body_success_resets (s : state W) out w :
  subprocess_run (world s) = (Completed 0 out, w) ->
  retries (state_after (loop_body s)) = 0%Z.
Proof.
  intros H. unfold Orchestrator.loop_body. rewrite H. simpl.
  destruct out as [e p| |]; simpl; [|done..]. by destruct (p =? 0)%Z.
Qed.

(** The trace of [n] failed attempts that were retried, then one more. *)
Definition crash_trace (n : nat) : list event :=
  concat (replicate n [Spawn; Sleep 2%Z]) ++ [Spawn].

Section Crashing.

Hypothesis crashes :
  forall w, exists rc out w', subprocess_run w = (Completed rc out, w') /\ rc <> 0%Z.

Lemma loop_crashing total (n : nat) :
  forall s : state W,
    retries s = (5 - Z.of_nat n)%Z -> n <= 5 -> (done s < total)%Z ->
    (forall fuel, fuel <= n -> loop fuel total s = None) /\
    (forall fuel, n < fuel ->
       exists s', loop fuel total s = Some (TooManyFailures, s') /\
                  done s' = done s /\ retries s' = 6%Z /\
                  trace s' = trace s ++ crash_trace n).
Proof.
  induction n as [|n IH]; intros s Hr Hn Hd.
  - split; intros fuel Hf.
    + assert (fuel = 0) as -> by lia. by apply loop_no_fuel.
    + destruct fuel as [|fuel]; [lia|].
      destruct (crashes (world s)) as (rc & out & w' & Hrun & Hrc).
      rewrite loop_unfold by done. rewrite (loop_body_crash _ _ _ _ Hrun Hrc).
      replace (retries s + 1 >? 5)%Z with true by lia.
      eexists. split; [done|]. simpl. repeat split; lia.
  - destruct (crashes (world s)) as (rc & out & w' & Hrun & Hrc).
    set (s1 := State (done s) (retries s + 1)%Z w' ((trace s ++ [Spawn]) ++ [Sleep 2])).
    destruct (IH s1) as [IH1 IH2]; [simpl; lia|lia|done|].
    assert (Hstep : forall fuel, loop (S fuel) total s = loop fuel total s1).
    { intros fuel. rewrite loop_unfold by done.
      rewrite (loop_body_crash _ _ _ _ Hrun Hrc).
      by replace (retries s + 1 >? 5)%Z with false by lia. }
    split; intros fuel Hf.
    + destruct fuel as [|fuel]; [by apply loop_no_fuel|].
      rewrite Hstep. apply IH1. lia.
    + destruct fuel as [|fuel]; [lia|]. rewrite Hstep.
      destruct (IH2 fuel) as (s' & Hl & Hd' & Hr' & Ht); [lia|].
      exists s'. split; [done|]. split; [done|]. split; [done|].
      rewrite Ht. unfold crash_trace. simpl. by rewrite <- !app_assoc.
Qed.

End Crashing.

Section Stuck.

(** Workers that select chunks and embed none of them, in every world that
    [Inv] admits. *)
Variable Inv : W -> Prop.
Hypothesis embeds_nothing :
  forall w, Inv w ->
    exists p w', subprocess_run w = (Completed 0 (Counts 0 p), w') /\
                 p <> 0%Z /\ Inv w'.

Lemma loop_stuck total fuel :
  forall s : state W, Inv (world s) -> (done s < total)%Z -> loop fuel total s = None.
Proof.
  induction fuel as [|fuel IH]; intros s Hi Hd; [by apply loop_no_fuel|].
  destruct (embeds_nothing _ Hi) as (p & w' & Hrun & Hp & Hi').
  rewrite loop_unfold by done. rewrite (loop_body_counts _ _ _ _ Hrun).
  apply Z.eqb_neq in Hp. rewrite Hp. apply IH; simpl; [done|lia].
Qed.

End Stuck.

Section Ideal.

(** Workers that embed every chunk they select, a full batch or all that is
    left, in every world that [Inv] admits. *)
Variable Inv : W -> Prop.
Hypothesis embeds_all :
  forall w, Inv w ->
    let m := Z.min (Z.of_nat BATCH_SIZE) (query_total w) in
    exists w', subprocess_run w = (Completed 0 (Counts m m), w') /\
               query_total w' = (query_total w - m)%Z /\ Inv w'.

(** [ceil(n / batch_size)] *)
Definition cycles_bound (n : Z) : nat :=
  Z.to_nat ((n + Z.of_nat BATCH_SIZE - 1) / Z.of_nat BATCH_SIZE).

Lemma cycles_bound_zero n : (0 <= n)%Z -> cycles_bound n = 0 -> n = 0%Z.
Proof.
  unfold cycles_bound, BATCH_SIZE. intros Hn H.
  assert ((n + Z.of_nat 2000 - 1) / Z.of_nat 2000 <= 0)%Z as H' by lia.
  clear H. change (Z.of_nat 2000) with 2000%Z in H'.
  Z.div_mod_to_equations. lia.
Qed.

Lemma cycles_bound_step n k :
  (0 <= n)%Z -> cycles_bound n = S k ->
  (0 < n)%Z /\ cycles_bound (n - Z.min (Z.of_nat BATCH_SIZE) n) = k.
Proof.
  unfold cycles_bound, BATCH_SIZE. change (Z.of_nat 2000) with 2000%Z.
  intros Hn H.
  assert ((n + 2000 - 1) / 2000 = Z.of_nat (S k))%Z as H'.
  { rewrite <- H. rewrite Z2Nat.id; [done|]. Z.div_mod_to_equations. lia. }
  clear H. split.
  - Z.div_mod_to_equations. lia.
  - apply Nat2Z.inj. rewrite Z2Nat.id.
    + destruct (Z.min_spec 2000 n) as [[? ->]|[? ->]];
        Z.div_mod_to_equations; lia.
    + destruct (Z.min_spec 2000 n) as [[? ->]|[? ->]];
        Z.div_mod_to_equations; lia.
Qed.

Lemma dispatch_cycles_app t1 t2 :
  dispatch_cycles (t1 ++ t2) = dispatch_cycles t1 + dispatch_cycles t2.
Proof. unfold dispatch_cycles. by rewrite List.filter_app, length_app. Qed.

Lemma loop_ideal total (k : nat) :
  forall s : state W,
    Inv (world s) -> (0 <= query_total (world s))%Z ->
    done s = (total - query_total (world s))%Z ->
    cycles_bound (query_total (world s)) = k ->
    forall fuel, k <= fuel ->
      exists s', loop fuel total s = Some (Drained, s') /\
                 done s' = total /\ query_total (world s') = 0%Z /\
                 dispatch_cycles (trace s') = dispatch_cycles (trace s) + k.
Proof.
  induction k as [|k IH]; intros s Hi Hq Hd Hk fuel Hf.
  - apply cycles_bound_zero in Hk; [|done].
    exists s. rewrite loop_drained by lia. repeat split; lia.
  - apply cycles_bound_step in Hk as [Hpos Hk]; [|done].
    destruct fuel as [|fuel]; [lia|].
    destruct (embeds_all _ Hi) as (w' & Hrun & Hq' & Hi').
    rewrite loop_unfold by lia. rewrite (loop_body_counts _ _ _ _ Hrun).
    change (Z.of_nat BATCH_SIZE) with 2000%Z in *.
    replace (Z.min 2000 (query_total (world s)) =? 0)%Z with false by lia.
    set (m := Z.min 2000 (query_total (world s))) in *.
    set (s1 := State (done s + m)%Z 0%Z w' (trace s ++ [Spawn])).
    destruct (IH s1) with (fuel := fuel) as (s' & Hl & Hd' & Hq'' & Ht).
    + done.
    + simpl. lia.
    + simpl. lia.
    + simpl. rewrite Hq'. exact Hk.
    + lia.
    + exists s'. split; [exact Hl|]. split; [done|]. split; [done|].
      rewrite Ht. unfold s1; cbn [trace]. rewrite dispatch_cycles_app.
      change (dispatch_cycles [Spawn]) with 1. lia.
Qed.

End Ideal.

End LoopFacts.

(** *** Runs of the backfill *)

(** Small worlds without a store: the world is the number of chunks that
    still lack a vector. *)
Definition remaining (w : Z) : Z := w.

Definition always_timeout (w : Z) : run_result * Z := (TimeoutExpired, w).

Definition always_crash (w : Z) : run_result * Z := (Completed 1 Unparseable, w).

Definition embeds_batch (w : Z) : run_result * Z :=
  let m := Z.min (Z.of_nat BATCH_SIZE) w in
  (Completed 0 (Counts m m), (w - m)%Z).

(** C1: with one chunk to embed and a worker that runs into the timeout,
    [main] ends by the uncaught [TimeoutExpired] after its first dispatch: the
    retry counter is still 0, nothing slept, and the end is neither Stopped nor
    Aborted.  A worker that exits with status 1 in the same state is counted,
    followed by the backoff, and the loop goes on. *)
Theorem timeout_ends_main_uncaught (fuel : nat) :
  main remaining always_timeout (S fuel) 1%Z
    = Some (Uncaught, State 0%Z 0%Z 1%Z [Spawn]) /\
  terminal_of Uncaught = None /\
  loop_body always_crash (State 0%Z 0%Z 1%Z [])
    = inr (State 0%Z 1%Z 1%Z [Spawn; Sleep 2%Z]).
Proof. repeat split. Qed.

Lemma cycles_bound_ceil (n : Z) :
  (0 <= n)%Z ->
  (2000 * (Z.of_nat (cycles_bound n) - 1) < n <= 2000 * Z.of_nat (cycles_bound n))%Z.
Proof.
  intros Hn. unfold cycles_bound. change (Z.of_nat BATCH_SIZE) with 2000%Z.
  rewrite Z2Nat.id by (Z.div_mod_to_equations; lia).
  Z.div_mod_to_equations. lia.
Qed.

(** C4: when the unembedded count [n] is finite and every worker succeeds and
    embeds all it selects (a batch of 2000, or what is left), [main] reaches
    Stopped, with all [n] chunks done, after [ceil(n / 2000)] dispatch cycles,
    so after at most that many. *)
Theorem ideal_workers_drain_within_bound {W : Type}
    (query_total : W -> Z) (subprocess_run : W -> run_result * W) (w : W) :
  (0 <= query_total w)%Z ->
  (forall w,
     let m := Z.min (Z.of_nat BATCH_SIZE) (query_total w) in
     exists w', subprocess_run w = (Completed 0 (Counts m m), w') /\
                query_total w' = (query_total w - m)%Z) ->
  forall fuel, cycles_bound (query_total w) <= fuel ->
    exists e s, main query_total subprocess_run fuel w = Some (e, s) /\
                terminal_of e = Some Stopped /\
                done s = query_total w /\
                dispatch_cycles (trace s) = cycles_bound (query_total w) /\
                dispatch_cycles (trace s) <= cycles_bound (query_total w).
Proof.
  intros Hn Hideal fuel Hf. unfold main.
  destruct (query_total w =? 0)%Z eqn:E.
  - apply Z.eqb_eq in E. exists NothingToDo. eexists. split; [done|].
    rewrite E. by vm_compute.
  - apply Z.eqb_neq in E.
    destruct (loop_ideal query_total subprocess_run (fun _ => True)) with
      (total := query_total w) (k := cycles_bound (query_total w))
      (s := State 0%Z 0%Z w []) (fuel := fuel) as (s' & Hl & Hd & _ & Ht);
      simpl; try done; try lia.
    + intros w0 _. destruct (Hideal w0) as (w' & H1 & H2). by exists w'.
    + exists Drained, s'. simpl in Ht. rewrite Ht. done.
Qed.

Lemma ideal_workers_drain_within_bound_witness :
  exists e s, main remaining embeds_batch 3 4500%Z = Some (e, s) /\
              terminal_of e = Some Stopped /\
              done s = 4500%Z /\
              dispatch_cycles (trace s) = cycles_bound 4500 /\
              dispatch_cycles (trace s) <= cycles_bound 4500.
Proof.
  apply (ideal_workers_drain_within_bound remaining embeds_batch 4500%Z).
  - unfold remaining. lia.
  - intros w m. exists (w - m)%Z. split; reflexivity.
  - vm_compute. lia.
Defined.

(** A store with one document and one chunk, and a capability that loads but
    gives no vector for any text. *)
Definition one_chunk_db : database :=
  sql_insert_chunk
    (sql_insert_document empty_db
       (Document 1%N (lit "note.md") 0%Z (lit "file") (Some (lit "note.md")) None))
    2%N 1%N (lit "some text").

Definition gives_no_vector : embedding :=
  Embedding None 768 (fun _ => None).

(** C5: with one chunk that the capability cannot embed, every worker reports
    one chunk processed and none embedded and leaves the store as it was, and
    the backfill never ends: whatever the number of turns allowed, the loop is
    still dispatching. *)
Theorem unembeddable_chunk_never_stops (fuel : nat) :
  run_worker gives_no_vector one_chunk_db
    = (Completed 0 (Counts 0 1), one_chunk_db) /\
  backfill gives_no_vector fuel one_chunk_db = None.
Proof.
  assert (Hrun : run_worker gives_no_vector one_chunk_db
                 = (Completed 0 (Counts 0 1), one_chunk_db)) by reflexivity.
  split; [exact Hrun|].
  unfold backfill, main. change (count_unembedded one_chunk_db) with 1%Z.
  change (1 =? 0)%Z with false. cbv iota.
  apply (loop_stuck (run_worker gives_no_vector) (fun db => db = one_chunk_db));
    [|reflexivity|cbn [done]; lia].
  intros db ->. exists 1%Z, one_chunk_db. rewrite Hrun.
  split; [reflexivity|]. split; [lia|reflexivity].
Qed.

(** The trace of a run with workers that always crash. *)
Definition six_attempts : list event :=
  [Spawn; Sleep 2%Z; Spawn; Sleep 2%Z; Spawn; Sleep 2%Z;
   Spawn; Sleep 2%Z; Spawn; Sleep 2%Z; Spawn].

(** Workers of which five in a row crash and every sixth exits with status 0,
    having embedded one chunk; the world is the number of workers started so
    far. *)
Definition crashes_five_of_six (w : Z) : run_result * Z :=
  if (w mod 6 =? 5)%Z then (Completed 0 (Counts 1 1), (w + 1)%Z)
  else (Completed 1 Unparseable, (w + 1)%Z).

(** The state of the loop after the first five crashes of
    [crashes_five_of_six]. *)
Definition after_five_crashes : state Z :=
  State 0%Z 5%Z 5%Z
    [Spawn; Sleep 2%Z; Spawn; Sleep 2%Z; Spawn; Sleep 2%Z;
     Spawn; Sleep 2%Z; Spawn; Sleep 2%Z].

(** With two chunks waiting, the run with [crashes_five_of_six] sees ten
    crashes, never six in a row, and ends Stopped after twelve workers with
    the counter at 0. *)
Example interrupted_crashes_do_not_abort :
  exists s : state Z,
    main (fun _ : Z => 2%Z) crashes_five_of_six 12 0%Z = Some (Drained, s) /\
    done s = 2%Z /\ retries s = 0%Z /\
    dispatch_cycles (trace s) = 12 /\
    length (List.filter (fun e => negb (is_spawn e)) (trace s)) = 10.
Proof. eexists. split; [vm_compute; reflexivity|]. vm_compute. done. Qed.

(** C6, as the code has it: when chunks wait and every worker exits with a
    non-zero status, [main] reaches Aborted when the counter of consecutive
    crashes exceeds 5, that is with the sixth crashed worker and not before,
    after sleeping the backoff of 2 seconds between attempts, five times in
    all.  And, whatever the workers do otherwise and whatever the counter has
    reached, a worker that exits with status 0 sets the counter back to 0,
    and no backoff follows it. *)
Theorem crashing_workers_abort_at_sixth {W : Type}
    (query_total : W -> Z) (subprocess_run : W -> run_result * W) :
  (forall w : W,
     (0 < query_total w)%Z ->
     (forall w0, exists rc out w',
         subprocess_run w0 = (Completed rc out, w') /\ rc <> 0%Z) ->
     (forall fuel, fuel <= 5 -> main query_total subprocess_run fuel w = None) /\
     (forall fuel, 5 < fuel ->
        exists s, main query_total subprocess_run fuel w = Some (TooManyFailures, s) /\
                  terminal_of TooManyFailures = Some Aborted /\
                  trace s = six_attempts /\
                  dispatch_cycles (trace s) = 6 /\
                  retries s = 6%Z /\ done s = 0%Z)) /\
  (forall (s : state W) out w',
     subprocess_run (world s) = (Completed 0 out, w') ->
     retries (state_after (loop_body subprocess_run s)) = 0%Z /\
     trace (state_after (loop_body subprocess_run s)) = trace s ++ [Spawn]).
Proof.
  split.
  - intros w Hn Hcrash.
    assert (E : (query_total w =? 0)%Z = false) by (apply Z.eqb_neq; lia).
    destruct (loop_crashing subprocess_run Hcrash (query_total w) 5 (State 0%Z 0%Z w []))
      as [H1 H2]; [reflexivity|lia|exact Hn|].
    split.
    + intros fuel Hf. unfold main. rewrite E. apply H1, Hf.
    + intros fuel Hf. unfold main. rewrite E.
      destruct (H2 fuel Hf) as (s' & Hl & Hd & Hr & Ht).
      exists s'. split; [exact Hl|]. split; [reflexivity|].
      rewrite Ht. split; [reflexivity|]. split; [reflexivity|].
      split; [exact Hr|exact Hd].
  - intros s out w' Hrun. split.
    + eapply loop_body_success_resets, Hrun.
    + unfold loop_body. rewrite Hrun. cbn [negb Z.eqb].
      destruct out as [e p| |]; cbn [state_after trace]; [|reflexivity..].
      destruct (p =? 0)%Z; reflexivity.
Qed.

Lemma crashing_workers_abort_at_sixth_witness :
  ((forall fuel, fuel <= 5 -> main remaining always_crash fuel 1%Z = None) /\
   (forall fuel, 5 < fuel ->
      exists s, main remaining always_crash fuel 1%Z = Some (TooManyFailures, s) /\
                terminal_of TooManyFailures = Some Aborted /\
                trace s = six_attempts /\
                dispatch_cycles (trace s) = 6 /\
                retries s = 6%Z /\ done s = 0%Z)) /\
  (retries after_five_crashes = 5%Z /\
   crashes_five_of_six (world after_five_crashes) = (Completed 0 (Counts 1 1), 6%Z) /\
   retries (state_after (loop_body crashes_five_of_six after_five_crashes)) = 0%Z /\
   trace (state_after (loop_body crashes_five_of_six after_five_crashes))
     = trace after_five_crashes ++ [Spawn]).
Proof.
  split.
  - apply (proj1 (crashing_workers_abort_at_sixth remaining always_crash) 1%Z).
    + unfold remaining. lia.
    + intros w. exists 1%Z, Unparseable, w. split; [reflexivity|lia].
  - split; [reflexivity|]. split; [reflexivity|].
    apply (proj2 (crashing_workers_abort_at_sixth remaining crashes_five_of_six)
             after_five_crashes (Counts 1 1) 6%Z).
    reflexivity.
Defined.

(** C6 as stated fails: with one chunk waiting and workers that always exit
    with status 1, the run is not over after five worker attempts, and no run
    ends Aborted with five dispatch cycles; the end comes with the sixth. *)
Lemma five_crashes_do_not_abort :
  main remaining always_crash 5 1%Z = None /\
  (exists s, main remaining always_crash 6 1%Z = Some (TooManyFailures, s) /\
             dispatch_cycles (trace s) = 6) /\
  ~ (exists fuel s, main remaining always_crash fuel 1%Z = Some (TooManyFailures, s) /\
                    dispatch_cycles (trace s) = 5).
Proof.
  split; [vm_compute; reflexivity|].
  split; [eexists; split; vm_compute; reflexivity|].
  intros (fuel & s & Hm & Hc).
  assert (Hcrash : forall w : Z, exists rc out w',
             always_crash w = (Completed rc out, w') /\ rc <> 0%Z).
  { intros w. exists 1%Z, Unparseable, w. split; [reflexivity|lia]. }
  destruct (loop_crashing always_crash Hcrash 1%Z 5 (State 0%Z 0%Z 1%Z []))
    as [H1 H2]; [reflexivity|lia|reflexivity|].
  change (main remaining always_crash fuel 1%Z)
    with (loop always_crash fuel 1%Z (State 0%Z 0%Z 1%Z [])) in Hm.
  destruct (decide (fuel <= 5)) as [Hf|Hf].
  - rewrite (H1 fuel Hf) in Hm. discriminate Hm.
  - destruct (H2 fuel) as (s' & Hl & _ & _ & Ht); [lia|].
    rewrite Hl in Hm. injection Hm as <-. rewrite Ht in Hc.
    change (6 = 5) in Hc. discriminate Hc.
Qed.

(** *** What the worker writes *)

Section WorkerFacts.

Lemma pack_from (v pre : list float) :
  mapM (fun i => (pre ++ v) !! i) (seq (length pre) (length v)) = Some v.
Proof.
  revert pre. induction v as [|x v IH]; intros pre; [reflexivity|].
  cbn [length seq mapM]. rewrite list_lookup_middle by reflexivity. simpl.
  specialize (IH (pre ++ [x])). rewrite <- app_assoc, length_app in IH. simpl in IH.
  rewrite Nat.add_1_r in IH. by rewrite IH.
Qed.

(** Under the guard [len(vec) == dim] the packed components are those of the
    vector, all of them and in order, each as a 4-byte float. *)
Lemma pack_exact (dim : nat) (v : list float) :
  length v = dim -> pack dim v = Some (List.map pack_f v).
Proof.
  intros <-. unfold pack. pose proof (pack_from v []) as H.
  cbn [app length] in H. by rewrite H.
Qed.

Lemma accepts_spec (dim : nat) (v : list float) :
  accepts dim (Some v) = true <-> v <> [] /\ length v = dim.
Proof.
  unfold accepts. rewrite andb_true_iff, Nat.eqb_eq.
  destruct v; simpl; split; intros [? ?]; split; congruence.
Qed.

Lemma embed_row_skips emb dim db count row :
  accepts dim (sentenceEmbeddingVector emb (embedding_input row.2)) = false ->
  embed_row emb dim (Some (db, count)) row = Some (db, count).
Proof. intros H. unfold embed_row. by rewrite H. Qed.

Lemma embed_row_writes emb dim db count row v :
  sentenceEmbeddingVector emb (embedding_input row.2) = Some v ->
  v <> [] -> length v = dim ->
  embed_row emb dim (Some (db, count)) row
  = Some (sql_update_vector db (List.map pack_f v) row.1, (count + 1)%Z).
Proof.
  intros Hv Hne Hlen. unfold embed_row. rewrite Hv.
  replace (accepts dim (Some v)) with true by (symmetry; by apply accepts_spec).
  simpl. by rewrite pack_exact.
Qed.

(** No turn of the loop raises. *)
Lemma embed_row_returns emb dim db count row :
  exists db' count', embed_row emb dim (Some (db, count)) row = Some (db', count').
Proof.
  destruct (accepts dim (sentenceEmbeddingVector emb (embedding_input row.2))) eqn:E.
  - destruct (sentenceEmbeddingVector emb (embedding_input row.2)) as [v|] eqn:Ev;
      [|discriminate].
    apply accepts_spec in E as [Hne Hlen].
    eexists _, _. by apply embed_row_writes.
  - eexists _, _. by apply embed_row_skips.
Qed.

Lemma embed_rows_return emb dim rows :
  forall db count,
    exists db' count',
      fold_left (embed_row emb dim) rows (Some (db, count)) = Some (db', count').
Proof.
  induction rows as [|row rows IH]; intros db count; simpl.
  - by eexists _, _.
  - destruct (embed_row_returns emb dim db count row) as (db1 & c1 & H).
    fold (embed_row emb dim (Some (db, count)) row). rewrite H. apply IH.
Qed.

(** A worker whose model loaded ends with status 0 and the two counts. *)
Lemma worker_script_exit_0 emb db limit :
  loadWithError emb = None ->
  exists db' n,
    worker_script emb db limit
    = (db', 0%Z, Counts n (Z.of_nat (length (select_unembedded db limit)))).
Proof.
  intros Hload. unfold worker_script. rewrite Hload.
  destruct (embed_rows_return emb (sentenceVectorDimension emb)
              (select_unembedded db limit) db 0%Z) as (db' & n & H).
  rewrite H. by eexists _, _.
Qed.

(** An [UPDATE] for an id that no row has. *)
Lemma sql_update_vector_missing db b id :
  Forall (fun c => chunk_id c <> id) (chunks db) -> sql_update_vector db b id = db.
Proof.
  destruct db as [docs cs fts]. unfold sql_update_vector; simpl. intros H.
  f_equal. induction H as [|c cs Hc _ IH]; simpl; [done|].
  rewrite IH. by rewrite decide_False.
Qed.

(** C7, as the code has it: for each chunk the worker processes, when the
    capability gives no vector, an empty one, or one whose length differs from
    the dimension the model reports, no [UPDATE] is issued: the store is left
    as it is, the chunk is not counted as embedded, and nothing is reported
    (a worker whose model loaded always exits with status 0).  Otherwise the
    stored vector has one 4-byte float for each component of the computed
    one, in the same order, as many as the model's dimension: each component
    is rounded to a 4-byte float, and the vector is neither cut nor filled up.
    An [UPDATE] for an id that no chunk has changes nothing and raises
    nothing. *)
Theorem worker_writes_only_model_sized_vectors
    (emb : embedding) (db : database) (count : Z) (id : uuid) (t : str) :
  let dim := sentenceVectorDimension emb in
  let vec := sentenceEmbeddingVector emb (embedding_input t) in
  (vec = None \/ vec = Some [] \/ (exists v, vec = Some v /\ length v <> dim) ->
   embed_row emb dim (Some (db, count)) (id, t) = Some (db, count)) /\
  (forall v, vec = Some v -> v <> [] -> length v = dim ->
     exists b : blob,
       embed_row emb dim (Some (db, count)) (id, t)
       = Some (sql_update_vector db b id, (count + 1)%Z) /\
       b = List.map pack_f v /\
       length b = dim /\
       forall i, b !! i = pack_f <$> v !! i) /\
  (forall b, Forall (fun c => chunk_id c <> id) (chunks db) ->
     sql_update_vector db b id = db) /\
  (forall limit, loadWithError emb = None ->
     exists db' n,
       worker_script emb db limit
       = (db', 0%Z, Counts n (Z.of_nat (length (select_unembedded db limit))))).
Proof.
  intros dim vec. split; [|split; [|split]].
  - intros H. apply embed_row_skips. simpl. fold vec.
    destruct H as [->|[->|(v & -> & Hv)]]; [done..|].
    destruct (accepts dim (Some v)) eqn:E; [|done].
    apply accepts_spec in E as [_ E]. done.
  - intros v Hv Hne Hlen. exists (List.map pack_f v).
    split; [by apply (embed_row_writes emb dim db count (id, t))|].
    split; [reflexivity|]. split; [by rewrite length_map|].
    intros i. apply list_lookup_fmap.
  - intros b. apply sql_update_vector_missing.
  - intros limit. apply worker_script_exit_0.
Qed.

(** The double nearest to 0.1, and 1.0 and 0.5, as bit patterns. *)
Definition double_0_1 : float := 0x3FB999999999999A%Z.
Definition double_1_0 : float := 0x3FF0000000000000%Z.
Definition double_0_5 : float := 0x3FE0000000000000%Z.

(** Under the format [f], 1.0 and 0.5 are kept and 0.1 becomes the 4-byte
    float 0.100000001490116...; 1e39 becomes the infinity and 1e-50 the
    zero. *)
Example pack_f_rounds :
  List.map pack_f [double_1_0; double_0_5; double_0_1]
    = [0x3F800000; 0x3F000000; 0x3DCCCCCD]%Z /\
  pack_f 0x48078287F49C4A1D%Z = 0x7F800000%Z /\
  pack_f 0x358DEE7A4AD4B81F%Z = 0%Z.
Proof. vm_compute. done. Qed.

(** A store in which a vector of two components (two zeros) was written
    earlier, and a model of dimension 3. *)
Definition two_dim_db : database :=
  sql_insert_chunk
    (sql_update_vector
       (sql_insert_chunk
          (sql_insert_document empty_db
             (Document 1%N (lit "note.md") 0%Z (lit "file") (Some (lit "note.md")) None))
          2%N 1%N (lit "first chunk"))
       [0%Z; 0%Z] 2%N)
    3%N 1%N (lit "second chunk").

Definition three_dim : embedding :=
  Embedding None 3 (fun _ => Some [double_1_0; double_0_5; double_0_1]).

(** C7 as stated fails: the store holds a vector of two components, the worker
    computes one of three for the other chunk and writes it; the row is
    changed, the worker exits with status 0 and counts the chunk as embedded.
    And the update for an id that no chunk has goes through without an error,
    leaving the store as it is. *)
Lemma vector_of_other_dimension_is_written :
  List.map vector (chunks two_dim_db) = [Some [0%Z; 0%Z]; None] /\
  (let '(db', returncode, stdout) := worker_script three_dim two_dim_db BATCH_SIZE in
   returncode = 0%Z /\ stdout = Counts 1 1 /\
   List.map vector (chunks db')
   = [Some [0%Z; 0%Z]; Some [0x3F800000; 0x3F000000; 0x3DCCCCCD]%Z]) /\
  Forall (fun c => chunk_id c <> 99%N) (chunks two_dim_db) /\
  execute two_dim_db (UpdateVector [0x3F800000; 0x3F000000; 0x3DCCCCCD]%Z 99%N)
  = two_dim_db.
Proof.
  split; [vm_compute; reflexivity|]. split; [vm_compute; done|].
  split; [repeat constructor; vm_compute; discriminate|].
  vm_compute; reflexivity.
Qed.

Lemma worker_writes_only_model_sized_vectors_witness :
  exists b : blob,
    embed_row three_dim 3 (Some (two_dim_db, 0%Z)) (3%N, lit "second chunk")
    = Some (sql_update_vector two_dim_db b 3%N, (0 + 1)%Z) /\
    b = List.map pack_f [double_1_0; double_0_5; double_0_1] /\
    length b = 3 /\
    forall i, b !! i = pack_f <$> [double_1_0; double_0_5; double_0_1] !! i.
Proof.
  apply (proj1 (proj2 (worker_writes_only_model_sized_vectors
                         three_dim two_dim_db 0%Z 3%N (lit "second chunk")))).
  - reflexivity.
  - discriminate.
  - reflexivity.
Defined.

(** **** Only the first 512 characters count *)

(** Two rows that differ at most in their text beyond position 512. *)
Definition same_prefix (c1 c2 : chunk) : Prop :=
  rowid c1 = rowid c2 /\ chunk_id c1 = chunk_id c2 /\
  document_id c1 = document_id c2 /\ vector c1 = vector c2 /\
  take 512 (text c1) = take 512 (text c2).

Definition same_row (r1 r2 : uuid * str) : Prop :=
  r1.1 = r2.1 /\ take 512 r1.2 = take 512 r2.2.

Definition same_state (s1 s2 : option (database * Z)) : Prop :=
  match s1, s2 with
  | None, None => True
  | Some (db1, n1), Some (db2, n2) =>
      Forall2 same_prefix (chunks db1) (chunks db2) /\ n1 = n2
  | _, _ => False
  end.

Lemma same_prefix_select cs1 cs2 limit :
  Forall2 same_prefix cs1 cs2 ->
  Forall2 same_row
    (take limit (List.map (fun c => (chunk_id c, text c)) (List.filter unembedded cs1)))
    (take limit (List.map (fun c => (chunk_id c, text c)) (List.filter unembedded cs2))).
Proof.
  intros H. apply Forall2_take.
  induction H as [|c1 c2 cs1 cs2 (Hr & Hi & Hd & Hv & Ht) _ IH]; [constructor|].
  assert (Hu : unembedded c1 = unembedded c2) by (unfold unembedded; by rewrite Hv).
  cbn [List.filter]. rewrite Hu. destruct (unembedded c2); [|exact IH].
  cbn [List.map]. constructor; [by split|exact IH].
Qed.

Lemma same_prefix_update cs1 cs2 b id :
  Forall2 same_prefix cs1 cs2 ->
  Forall2 same_prefix
    (List.map (fun c => if decide (chunk_id c = id) then set_vector b c else c) cs1)
    (List.map (fun c => if decide (chunk_id c = id) then set_vector b c else c) cs2).
Proof.
  induction 1 as [|c1 c2 cs1 cs2 (Hr & Hi & Hd & Hv & Ht) _ IH]; simpl; constructor;
    [|exact IH].
  rewrite Hi. destruct (decide (chunk_id c2 = id)); by repeat split.
Qed.

Lemma same_state_embed_row emb dim s1 s2 r1 r2 :
  same_state s1 s2 -> same_row r1 r2 ->
  same_state (embed_row emb dim s1 r1) (embed_row emb dim s2 r2).
Proof.
  intros Hs [Hid Ht]. destruct s1 as [[db1 n1]|], s2 as [[db2 n2]|]; try done.
  destruct Hs as [Hdb ->]. unfold embed_row, embedding_input. rewrite Ht, Hid.
  destruct (accepts dim _); [|by split].
  destruct (pack dim _); [|done]. split; [|done]. by apply same_prefix_update.
Qed.

Lemma same_state_embed_rows emb dim rows1 rows2 :
  Forall2 same_row rows1 rows2 ->
  forall s1 s2, same_state s1 s2 ->
    same_state (fold_left (embed_row emb dim) rows1 s1)
               (fold_left (embed_row emb dim) rows2 s2).
Proof.
  induction 1 as [|r1 r2 rows1 rows2 Hr _ IH]; intros s1 s2 Hs; simpl; [exact Hs|].
  apply IH. by apply same_state_embed_row.
Qed.

(** C9: the worker hands the capability [text[:512]], at most 512 characters.
    For two texts that agree on their first 512 characters it hands over the
    same string and the turn of the loop has the same effect; and on two
    stores whose chunks differ only in their texts beyond position 512 a
    worker ends with the same status and output and leaves the same vectors. *)
Theorem embedding_reads_first_512 (t1 t2 : str) :
  take 512 t1 = take 512 t2 ->
  embedding_input t1 = embedding_input t2 /\
  length (embedding_input t1) <= 512 /\
  (forall emb dim st id,
     embed_row emb dim st (id, t1) = embed_row emb dim st (id, t2)) /\
  (forall emb db1 db2 limit,
     Forall2 same_prefix (chunks db1) (chunks db2) ->
     Forall2 same_prefix (chunks (worker_script emb db1 limit).1.1)
                         (chunks (worker_script emb db2 limit).1.1) /\
     (worker_script emb db1 limit).1.2 = (worker_script emb db2 limit).1.2 /\
     (worker_script emb db1 limit).2 = (worker_script emb db2 limit).2).
Proof.
  intros Ht. split; [exact Ht|].
  split; [unfold embedding_input; rewrite length_take; lia|].
  split.
  - intros emb dim st id. unfold embed_row, embedding_input; simpl. by rewrite Ht.
  - intros emb db1 db2 limit Hdb. unfold worker_script.
    destruct (loadWithError emb); [done|].
    pose proof (same_prefix_select _ _ limit Hdb) as Hrows.
    pose proof (same_state_embed_rows emb (sentenceVectorDimension emb) _ _ Hrows
                  (Some (db1, 0%Z)) (Some (db2, 0%Z)) (conj Hdb eq_refl)) as Hs.
    fold (select_unembedded db1 limit) in Hs, Hrows.
    fold (select_unembedded db2 limit) in Hs, Hrows.
    rewrite (Forall2_length _ _ _ Hrows).
    destruct (fold_left _ (select_unembedded db1 limit) _) as [[d1 n1]|],
             (fold_left _ (select_unembedded db2 limit) _) as [[d2 n2]|];
      simpl in *; try done.
    destruct Hs as [Hd ->]. done.
Qed.

Lemma embedding_reads_first_512_witness :
  embedding_input (replicate 512 SP ++ lit "a")
    = embedding_input (replicate 512 SP ++ lit "b") /\
  length (embedding_input (replicate 512 SP ++ lit "a")) <= 512 /\
  (forall emb dim st id,
     embed_row emb dim st (id, replicate 512 SP ++ lit "a")
     = embed_row emb dim st (id, replicate 512 SP ++ lit "b")) /\
  (forall emb db1 db2 limit,
     Forall2 same_prefix (chunks db1) (chunks db2) ->
     Forall2 same_prefix (chunks (worker_script emb db1 limit).1.1)
                         (chunks (worker_script emb db2 limit).1.1) /\
     (worker_script emb db1 limit).1.2 = (worker_script emb db2 limit).1.2 /\
     (worker_script emb db1 limit).2 = (worker_script emb db2 limit).2).
Proof.
  apply (embedding_reads_first_512 (replicate 512 SP ++ lit "a")
                                   (replicate 512 SP ++ lit "b")).
  vm_compute. reflexivity.
Defined.

End WorkerFacts.

(** ** The importers *)

Module Importer.

Definition MIN_HUMAN_MESSAGES : nat := 5.
Definition MAX_FILE_SIZE : Z := 50000000.

(** A run of the importer on an open connection: the store as the connection
    sees it, and how many values [uuid.uuid4()] has handed out.  Every run
    modelled here ends normally, after its [conn.commit()]. *)
Record session := Session {
  conn : database;
  drawn : nat
}.

Section Environment.

(** The values of [uuid.uuid4()], in the order they are drawn, and the reading
    of [time.time()] when a document is inserted. *)
Variable uuid4 : nat -> uuid.
Variable clock : nat -> float.

(** [{r[0] for r in rows}] over
    [SELECT source_path FROM documents WHERE source_path IS NOT NULL]. *)
Definition existing_source_paths (db : database) : gset str :=
  list_to_set (omap source_path (documents db)).

Definition insert_document (s : session) (doc_id : uuid) (filename source_type : str)
    (source_path : option str) (source_mod_date : option float) : session :=
  Session
    (sql_insert_document (conn s)
       (Document doc_id filename (clock (drawn s)) source_type source_path source_mod_date))
    (drawn s).

(** [executemany] over [[(str(uuid.uuid4()), document_id, text) for text in chunks]] *)
Definition insert_chunks (s : session) (chunks : list str) (document_id : uuid) : session :=
  fold_left
    (fun s t => Session (sql_insert_chunk (conn s) (uuid4 (drawn s)) document_id t)
                        (S (drawn s)))
    chunks s.

(** A file given to [--file]: [str(path)], [path.name] and what
    [path.read_text] returns. *)
Record file := File {
  file_path : str;
  file_name : str;
  file_text : str
}.

Definition import_file (s : session) (f : file) : session :=
  let chunks := chunk_text (file_text f) in
  if negb (truthy chunks) then s
  else
    let doc_id := uuid4 (drawn s) in
    let s := Session (conn s) (S (drawn s)) in
    let s := insert_document s doc_id (file_name f) (lit "file") (Some (file_path f)) None in
    insert_chunks s chunks doc_id.

(** A message and a conversation of a Claude.ai export. *)
Record message := Message {
  sender : str;
  message_text : str
}.

Record conversation := Conversation {
  name : option str;
  chat_messages : list message
}.

Definition is_human (m : message) : bool :=
  bool_decide (sender m = lit "human").

Definition eligible (c : conversation) : bool :=
  MIN_HUMAN_MESSAGES <=? length (List.filter is_human (chat_messages c)).

Definition block (m : message) : str :=
  lit "[" ++ (if is_human m then lit "Human" else lit "Assistant") ++ lit "]" ++ [NL]
  ++ message_text m.

Definition transcript (c : conversation) : str :=
  join [NL; NL] (List.map block (chat_messages c)).

(** One turn of [for i, conv in enumerate(eligible)]; the state is the session
    and [imported]. *)
Definition import_conversation (st : session * nat) (c : conversation) : session * nat :=
  let '(s, imported) := st in
  let chunks := chunk_text (transcript c) in
  if negb (truthy chunks) then st
  else
    let doc_id := uuid4 (drawn s) in
    let s := Session (conn s) (S (drawn s)) in
    let s := insert_document s doc_id
               (lit "claude.ai: " ++ default (lit "Untitled") (name c))
               (lit "claude_ai") None None in
    (insert_chunks s chunks doc_id, S imported).

Definition import_claude_ai (s : session) (conversations : list conversation)
    : session * nat :=
  fold_left import_conversation (List.filter eligible conversations) (s, 0).

(** A [.jsonl] file found under the directory: [str(fpath)], the names used
    for the display name, [stat().st_size] ([None] for [OSError]),
    [stat().st_mtime], and the messages [parse_cc_jsonl] extracts ([None] when
    it raises). *)
Record jsonl_file := JsonlFile {
  fpath : str;
  project_dir : str;
  session_id : str;
  st_size : option Z;
  st_mtime : float;
  parsed : option (list (str * str))
}.

Record report := Report {
  found : nat;
  new : nat;
  imported : nat;
  skipped : nat
}.

Definition role_block (m : str * str) : str :=
  lit "[" ++ m.1 ++ lit "]" ++ [NL] ++ m.2.

(** The chunks of a file that passes every check, [None] when it is skipped. *)
Definition chunks_to_import (f : jsonl_file) : option (list str) :=
  match st_size f with
  | None => None
  | Some size =>
      if (size >? MAX_FILE_SIZE)%Z then None
      else
        match parsed f with
        | None => None
        | Some messages =>
            let human_count :=
              length (List.filter (fun m => bool_decide (m.1 = lit "Human")) messages) in
            if human_count <? MIN_HUMAN_MESSAGES then None
            else
              let chunks := chunk_text (join [NL; NL] (List.map role_block messages)) in
              if negb (truthy chunks) then None else Some chunks
        end
  end.

(** One turn of [for i, fpath in enumerate(to_process)]; the state is the
    session with [imported] and [skipped]. *)
Definition import_transcript (st : session * nat * nat) (f : jsonl_file)
    : session * nat * nat :=
  let '(s, imported, skipped) := st in
  match chunks_to_import f with
  | None => (s, imported, S skipped)
  | Some chunks =>
      let doc_id := uuid4 (drawn s) in
      let s := Session (conn s) (S (drawn s)) in
      let s := insert_document s doc_id
                 (lit "claude-code/" ++ project_dir f ++ lit "/" ++ session_id f)
                 (lit "claude_code") (Some (fpath f)) (Some (st_mtime f)) in
      (insert_chunks s chunks doc_id, S imported, skipped)
  end.

(** [jsonl_files] is [sorted(directory.rglob("*.jsonl"))]. *)
Definition import_claude_code (s : session) (jsonl_files : list jsonl_file)
    : session * report :=
  if negb (truthy jsonl_files) then (s, Report 0 0 0 0)
  else
    let existing := existing_source_paths (conn s) in
    let to_process :=
      List.filter (fun f => negb (bool_decide (fpath f ∈ existing))) jsonl_files in
    if negb (truthy to_process) then (s, Report (length jsonl_files) 0 0 0)
    else
      let '(s', imported, skipped) := fold_left import_transcript to_process (s, 0, 0) in
      (s', Report (length jsonl_files) (length to_process) imported skipped).

End Environment.

End Importer.

Import Importer.

(** *** A text that starts with a visible character yields a chunk *)

Section ChunksExist.

(** A string that starts with a character that is not whitespace. *)
Definition starts_visible (s : str) : Prop :=
  exists c r, s = c :: r /\ isspace c = false.

Lemma split_scan_extends sep s :
  forall skip cur, exists tail ps, split_scan sep skip cur s = (cur ++ tail) :: ps.
Proof.
  induction s as [|c s IH]; intros skip cur; cbn [split_scan].
  - exists [], []. by rewrite app_nil_r.
  - destruct skip as [|k]; [|apply IH].
    destruct (startswith (c :: s) sep).
    + eexists [], _. rewrite app_nil_r. reflexivity.
    + destruct (IH 0 (cur ++ [c])) as (tail & ps & H).
      exists (c :: tail), ps. rewrite H. by rewrite <- app_assoc.
Qed.

Lemma split_first_piece c s sep :
  startswith (c :: s) sep = false ->
  exists tail ps, split (c :: s) sep = (c :: tail) :: ps.
Proof.
  intros H. unfold split. cbn [split_scan]. rewrite H.
  destruct (split_scan_extends sep s 0 ([] ++ [c])) as (tail & ps & Hs).
  exists tail, ps. exact Hs.
Qed.

Lemma lstrip_head s c r : lstrip s = c :: r -> isspace c = false.
Proof.
  induction s as [|a s IH]; simpl; [done|].
  destruct (isspace a) eqn:E; [exact IH|]. by intros [= <- _].
Qed.

Lemma lstrip_snoc c l :
  isspace c = false -> exists l', lstrip (l ++ [c]) = l' ++ [c].
Proof.
  intros Hc. induction l as [|a l IH]; simpl.
  - exists []. by rewrite Hc.
  - destruct (isspace a); [exact IH|]. by exists (a :: l).
Qed.

Lemma rstrip_cons c s :
  isspace c = false -> exists r, rstrip (c :: s) = c :: r.
Proof.
  intros Hc. unfold rstrip. simpl.
  destruct (lstrip_snoc c (rev s) Hc) as (l' & ->).
  exists (rev l'). by rewrite rev_app_distr.
Qed.

Lemma strip_cons c s :
  isspace c = false -> exists r, strip (c :: s) = c :: r.
Proof.
  intros Hc. unfold strip. simpl. rewrite Hc. by apply rstrip_cons.
Qed.

Lemma strip_starts_visible s : strip s <> [] -> starts_visible (strip s).
Proof.
  unfold strip. destruct (lstrip s) as [|c r] eqn:E; [done|]. intros _.
  apply lstrip_head in E. destruct (rstrip_cons c r E) as (r' & ->).
  by exists c, r'.
Qed.

Lemma isspace_NL c : isspace c = false -> (NL =? c)%N = false.
Proof.
  intros H. destruct (N.eqb_spec NL c) as [<-|]; [|done]. by vm_compute in H.
Qed.

Lemma paragraphs_starts_visible text :
  Forall starts_visible (paragraphs text).
Proof.
  unfold paragraphs. apply Forall_forall. intros p Hp.
  apply list_elem_of_In, in_map_iff in Hp as (q & <- & Hq).
  apply filter_In in Hq as [_ Hq]. apply strip_starts_visible.
  by destruct (strip q).
Qed.

Lemma paragraphs_nonempty text :
  starts_visible text -> paragraphs text <> [].
Proof.
  intros (c & r & -> & Hc). unfold paragraphs.
  destruct (split_first_piece c r [NL; NL]) as (tail & ps & ->).
  { cbn [startswith]. by rewrite (isspace_NL c Hc). }
  destruct (strip_cons c tail Hc) as (r' & Hs).
  simpl. rewrite Hs. done.
Qed.

Lemma sentences_first_nonempty p :
  starts_visible p -> exists s ss, sentences p = s :: ss /\ s <> [].
Proof.
  intros (c & r & -> & Hc). unfold sentences.
  assert (exists r', replace (c :: r) [DOT; SP] [DOT; NL] = c :: r') as (r' & ->).
  { unfold replace. cbn [replace_scan].
    destruct (startswith (c :: r) [DOT; SP]) eqn:E; [|by eexists].
    cbn [startswith] in E. apply andb_true_iff in E as [E _]. apply N.eqb_eq in E as <-.
    by eexists. }
  destruct (split_first_piece c r' [NL]) as (tail & ps & ->).
  { cbn [startswith]. by rewrite (isspace_NL c Hc). }
  by eexists _, _.
Qed.

(** The loop state holds something: a chunk, or a buffer that is not empty. *)
Definition holds_text (st : list str * str) : Prop :=
  st.1 <> [] \/ st.2 <> [].

Lemma flush_nonempty chunks b :
  holds_text (chunks, b) -> flush chunks b <> [].
Proof.
  unfold flush. intros [H|H]; simpl in H; destruct b; simpl; try done.
  - by destruct chunks.
  - by destruct chunks.
Qed.

Lemma pack_sentence_holds st sent :
  holds_text st \/ sent <> [] -> holds_text (pack_sentence st sent).
Proof.
  destruct st as [chunks sent_buf]. unfold pack_sentence. intros H.
  destruct (600 <? length sent_buf + length sent).
  - destruct H as [H|H]; [left; simpl; by apply flush_nonempty|by right].
  - destruct H as [[H|H]|H]; simpl in *.
    + by left.
    + right. by destruct sent_buf.
    + right. intros E. apply app_eq_nil in E as [_ E].
      by apply app_eq_nil in E as [_ E].
Qed.

Lemma pack_sentences_hold ss :
  forall st, holds_text st -> holds_text (fold_left pack_sentence ss st).
Proof.
  induction ss as [|s ss IH]; intros st H; simpl; [exact H|].
  apply IH, pack_sentence_holds. by left.
Qed.

Lemma split_long_nonempty chunks p :
  starts_visible p -> split_long chunks p <> [].
Proof.
  intros Hp. unfold split_long.
  destruct (sentences_first_nonempty p Hp) as (s & ss & -> & Hs). simpl.
  pose proof (pack_sentences_hold ss (pack_sentence (chunks, []) s)
                (pack_sentence_holds (chunks, []) s (or_intror Hs))) as H.
  destruct (fold_left pack_sentence ss _) as [c b]. by apply flush_nonempty.
Qed.

Lemma step_para_holds st p :
  starts_visible p -> holds_text (step_para st p).
Proof.
  intros Hp. destruct st as [chunks buffer]. unfold step_para.
  destruct (800 <? length p).
  - left. simpl. by apply split_long_nonempty.
  - destruct Hp as (c & r & -> & _).
    destruct (length buffer + length (c :: r) <? 100); right; simpl; [|done].
    intros E. apply app_eq_nil in E as [_ E]. by apply app_eq_nil in E as [_ E].
Qed.

Lemma chunk_paragraphs_nonempty paras :
  paras <> [] -> Forall starts_visible paras -> chunk_paragraphs paras <> [].
Proof.
  intros Hne Hall. unfold chunk_paragraphs.
  assert (H : holds_text (fold_left step_para paras ([], []))).
  { destruct (exists_last Hne) as (front & p & ->).
    apply Forall_app in Hall as [_ Hp]. apply Forall_inv in Hp.
    rewrite fold_left_app. simpl. by apply step_para_holds. }
  destruct (fold_left step_para paras ([], [])) as [c b]. by apply flush_nonempty.
Qed.

Theorem chunk_text_nonempty text :
  starts_visible text -> chunk_text text <> [].
Proof.
  intros H. unfold chunk_text. apply chunk_paragraphs_nonempty.
  - by apply paragraphs_nonempty.
  - apply paragraphs_starts_visible.
Qed.

End ChunksExist.

(** *** What the importers record *)

Section ImporterFacts.

Variable uuid4 : nat -> uuid.
Variable clock : nat -> float.

Local Abbreviation insert_chunks := (insert_chunks uuid4).
Local Abbreviation import_file := (import_file uuid4 clock).
Local Abbreviation import_conversation := (import_conversation uuid4 clock).
Local Abbreviation import_claude_ai := (import_claude_ai uuid4 clock).

Lemma insert_chunks_documents cs d :
  forall s, documents (conn (insert_chunks s cs d)) = documents (conn s).
Proof.
  unfold Importer.insert_chunks.
  induction cs as [|t cs IH]; intros s; simpl; [done|]. by rewrite IH.
Qed.

Lemma insert_chunks_texts cs d :
  forall s, List.map text (chunks (conn (insert_chunks s cs d)))
            = List.map text (chunks (conn s)) ++ cs.
Proof.
  unfold Importer.insert_chunks.
  induction cs as [|t cs IH]; intros s; simpl; [by rewrite app_nil_r|].
  rewrite IH. simpl. rewrite map_app. simpl. by rewrite <- app_assoc.
Qed.

(** [import_file] inserts a document for the file whenever the file yields a
    chunk, whatever the store already records. *)
Lemma import_file_inserts s f :
  chunk_text (file_text f) <> [] ->
  documents (conn (import_file s f))
  = documents (conn s)
    ++ [Document (uuid4 (drawn s)) (file_name f) (clock (S (drawn s)))
                 (lit "file") (Some (file_path f)) None].
Proof.
  intros H. unfold Importer.import_file.
  destruct (chunk_text (file_text f)) as [|t ts] eqn:E; [done|]. simpl truthy. simpl negb.
  cbv iota. by rewrite insert_chunks_documents.
Qed.









End ImporterFacts.

(** *** Importing the same path twice *)

(** A sample environment: identifiers in the order drawn, a clock that reads
    0, and a note with one short paragraph. *)
Definition sample_uuid4 (k : nat) : uuid := N.of_nat k.
Definition sample_clock (_ : nat) : float := 0%Z.

Definition note : file :=
  File (lit "notes/doc.md") (lit "doc.md") (lit "A short note.").

(** C2: importing the file [notes/doc.md] with [--file] into an empty store
    records one document with that source path; importing it again into the
    resulting store, where the path is among the recorded source paths,
    inserts a second document with the same source path and a second copy of
    its chunk.  [import_file] never looks at the recorded paths. *)
Theorem import_file_twice_inserts_twice :
  let s1 := import_file sample_uuid4 sample_clock (Session (init_db None) 0) note in
  let s2 := import_file sample_uuid4 sample_clock
              (Session (init_db (Some (conn s1))) (drawn s1)) note in
  List.map source_path (documents (conn s1)) = [Some (lit "notes/doc.md")] /\
  lit "notes/doc.md" ∈ existing_source_paths (conn s1) /\
  List.map source_path (documents (conn s2))
  = [Some (lit "notes/doc.md"); Some (lit "notes/doc.md")] /\
  List.map text (chunks (conn s2)) = [lit "A short note."; lit "A short note."].
Proof.
  intros s1 s2.
  assert (H1 : List.map source_path (documents (conn s1)) = [Some (lit "notes/doc.md")])
    by (vm_compute; reflexivity).
  split; [exact H1|]. split.
  - unfold existing_source_paths. apply elem_of_list_to_set.
    apply list_elem_of_omap. 
    assert (Hd : exists d, documents (conn s1) = [d] /\ source_path d = Some (lit "notes/doc.md")).
    { eexists. split; vm_compute; reflexivity. }
    destruct Hd as (d & -> & Hd). exists d. split; [by left|exact Hd].
  - split; vm_compute; reflexivity.
Qed.

(** *** The transcript importer skips what is recorded *)

Section TranscriptDedup.

Variable uuid4 : nat -> uuid.
Variable clock : nat -> float.

Local Abbreviation import_transcript := (import_transcript uuid4 clock).
Local Abbreviation import_claude_code := (import_claude_code uuid4 clock).

Definition importable (f : jsonl_file) : bool :=
  match chunks_to_import f with Some _ => true | None => false end.





(** The files a run goes through: those whose path is not recorded. *)
Definition to_process (s : session) (fs : list jsonl_file) : list jsonl_file :=
  List.filter (fun f => negb (bool_decide (fpath f ∈ existing_source_paths (conn s)))) fs.

(** The early returns leave what the loop over no file would leave. *)
Lemma import_claude_code_loop s fs :
  ((import_claude_code s fs).1
   = (fold_left import_transcript (to_process s fs) (s, 0, 0)).1.1) /\
  (imported ((import_claude_code s fs).2)
   = (fold_left import_transcript (to_process s fs) (s, 0, 0)).1.2).
Proof.
  unfold Importer.import_claude_code. fold (to_process s fs).
  destruct fs as [|f0 fs0]; [done|]. cbn [truthy negb].
  destruct (to_process s (f0 :: fs0)) as [|f1 fs1]; [done|]. cbn [truthy negb].
  by destruct (fold_left import_transcript (f1 :: fs1) (s, 0, 0)) as [[s' i'] k'].
Qed.






End TranscriptDedup.

(** ** Further properties of the chunker *)

Section SplitJoin.

Lemma startswith_app s p :
  startswith s p = true -> exists r, s = p ++ r.
Proof.
  revert s. induction p as [|a p IH]; intros s H; [by exists s|].
  destruct s as [|c s]; [done|]. cbn [startswith] in H.
  apply andb_true_iff in H as [Ha H]. apply N.eqb_eq in Ha as ->.
  destruct (IH s H) as (r & ->). by exists r.
Qed.

Lemma split_scan_skip sep pre :
  forall cur rest,
    split_scan sep (length pre) cur (pre ++ rest) = split_scan sep 0 cur rest.
Proof. induction pre as [|c pre IH]; intros cur rest; [done|]. apply IH. Qed.

Lemma split_scan_nonempty sep skip cur s : split_scan sep skip cur s <> [].
Proof. by destruct (split_scan_extends sep s skip cur) as (tail & ps & ->). Qed.

Lemma join_cons sep (p : str) (l : list str) :
  l <> [] -> join sep (p :: l) = p ++ sep ++ join sep l.
Proof. by destruct l. Qed.

(** Joining the pieces of a split with the separator gives the string back. *)
Lemma join_split_scan sep (n : nat) :
  sep <> [] ->
  forall s cur, length s <= n -> join sep (split_scan sep 0 cur s) = cur ++ s.
Proof.
  intros Hsep. induction n as [|n IH]; intros s cur Hlen.
  - destruct s; [|simpl in Hlen; lia]. simpl. by rewrite app_nil_r.
  - destruct s as [|c s]; [simpl; by rewrite app_nil_r|].
    cbn [split_scan]. destruct (startswith (c :: s) sep) eqn:E.
    + apply startswith_app in E as (r & E).
      destruct sep as [|a sep']; [done|]. simpl in E. injection E as -> ->.
      replace (length (a :: sep') - 1) with (length sep') by (simpl; lia).
      rewrite split_scan_skip.
      rewrite join_cons by apply split_scan_nonempty.
      rewrite IH; [reflexivity|].
      simpl in Hlen. rewrite length_app in Hlen. lia.
    + rewrite IH; [by rewrite <- app_assoc|]. simpl in Hlen. lia.
Qed.

Lemma join_split s sep : sep <> [] -> join sep (split s sep) = s.
Proof. intros H. unfold split. by rewrite (join_split_scan sep (length s) H). Qed.

Lemma elem_of_join sep (l : list str) (c : char) :
  c ∈ join sep l <-> (exists p, p ∈ l /\ c ∈ p) \/ (c ∈ sep /\ 2 <= length l).
Proof.
  induction l as [|p l IH].
  - simpl. split; [by intros ?%elem_of_nil|].
    intros [(p & Hp & _)|[_ H]]; [by apply elem_of_nil in Hp|simpl in H; lia].
  - destruct l as [|q l].
    + simpl. split.
      * intros H. left. exists p. split; [by left|done].
      * intros [(p' & Hp' & Hc)|[_ H]]; [|simpl in H; lia].
        apply list_elem_of_singleton in Hp'. by subst.
    + rewrite join_cons by done. rewrite !elem_of_app, IH. split.
      * intros [H|[H|[(p' & Hp' & Hc)|[H _]]]].
        -- left. exists p. split; [by left|done].
        -- right. split; [done|simpl; lia].
        -- left. exists p'. split; [by right|done].
        -- right. split; [done|simpl; lia].
      * intros [(p' & Hp' & Hc)|[H _]]; [|by right; left].
        apply elem_of_cons in Hp' as [->|Hp']; [by left|].
        right; right; left. by exists p'.
Qed.

End SplitJoin.

Section ChunkerFacts.

Lemma lstrip_blank s : Forall (fun c => isspace c = true) s -> lstrip s = [].
Proof. induction 1 as [|c s Hc _ IH]; simpl; [done|]. by rewrite Hc. Qed.

Lemma strip_blank s : Forall (fun c => isspace c = true) s -> strip s = [].
Proof. intros H. unfold strip. by rewrite (lstrip_blank s H). Qed.

Lemma lstrip_keeps s c : c ∈ s -> isspace c = false -> c ∈ lstrip s.
Proof.
  intros Hin Hc. induction s as [|a s IH]; [done|]. simpl.
  destruct (isspace a) eqn:E; [|done].
  apply elem_of_cons in Hin as [->|Hin]; [congruence|by apply IH].
Qed.

Lemma elem_of_rev (l : str) c : c ∈ rev l <-> c ∈ l.
Proof. rewrite !list_elem_of_In. symmetry. apply in_rev. Qed.

Lemma strip_keeps s c : c ∈ s -> isspace c = false -> c ∈ strip s.
Proof.
  intros Hin Hc. unfold strip, rstrip.
  apply elem_of_rev, lstrip_keeps; [|done]. by apply elem_of_rev, lstrip_keeps.
Qed.

Lemma filter_none {A} (p : A -> bool) (l : list A) :
  Forall (fun x => p x = false) l -> List.filter p l = [].
Proof. induction 1 as [|x l Hx _ IH]; cbn [List.filter]; [done|]. by rewrite Hx. Qed.

Lemma visible_char_paragraph text c :
  c ∈ text -> isspace c = false -> paragraphs text <> [].
Proof.
  intros Hc E.
  assert (Hjoin : join [NL; NL] (split text [NL; NL]) = text) by by apply join_split.
  rewrite <- Hjoin in Hc. apply elem_of_join in Hc as [(p & Hp & Hcp)|[Hsep _]].
  - assert (Hs : strip p <> []).
    { intros Hs. pose proof (strip_keeps p c Hcp E) as H. rewrite Hs in H.
      by apply elem_of_nil in H. }
    unfold paragraphs. intros Hpar. apply map_eq_nil in Hpar.
    assert (Hin : In p (List.filter (fun p => truthy (strip p)) (split text [NL; NL]))).
    { apply filter_In. split; [by apply list_elem_of_In|]. by destruct (strip p). }
    by rewrite Hpar in Hin.
  - assert (c = NL) as -> by (apply elem_of_cons in Hsep as [->|Hsep]; [done|];
      by apply list_elem_of_singleton in Hsep).
    by vm_compute in E.
Qed.

Lemma blank_text_paragraphs text :
  Forall (fun c => isspace c = true) text -> paragraphs text = [].
Proof.
  intros Hblank. unfold paragraphs.
  assert (Hjoin : join [NL; NL] (split text [NL; NL]) = text) by by apply join_split.
  rewrite filter_none; [done|].
  apply Forall_forall. intros p Hp. rewrite strip_blank; [done|].
  apply Forall_forall. intros c Hc. rewrite Forall_forall in Hblank.
  apply Hblank. rewrite <- Hjoin. apply elem_of_join. left. by exists p.
Qed.

Lemma visible_text_chunks text :
  ~ Forall (fun c => isspace c = true) text -> chunk_text text <> [].
Proof.
  intros H. apply not_Forall_Exists in H; [|intros c; apply _].
  apply Exists_exists in H as (c & Hc & E). apply not_true_is_false in E.
  unfold chunk_text. apply chunk_paragraphs_nonempty.
  - by eapply visible_char_paragraph.
  - apply paragraphs_starts_visible.
Qed.

(** [chunk_text] returns no chunk exactly when the text consists of
    whitespace only (the empty text included). *)
Theorem chunk_text_empty_iff_blank text :
  chunk_text text = [] <-> Forall (fun c => isspace c = true) text.
Proof.
  split.
  - intros Hnil.
    destruct (decide (Forall (fun c => isspace c = true) text)) as [H|H]; [exact H|].
    by apply visible_text_chunks in H.
  - intros H. unfold chunk_text. by rewrite (blank_text_paragraphs text H).
Qed.

(** No chunk is empty. *)
Theorem chunk_text_no_empty_chunk text :
  Forall (fun f => f <> []) (chunk_text text).
Proof.
  unfold chunk_text, chunk_paragraphs.
  pose (I := fun st : list str * str => Forall (fun f : str => f <> []) st.1).
  assert (Hpack : forall p chunks, Forall (fun f : str => f <> []) chunks ->
            Forall (fun f : str => f <> []) (split_long chunks p)).
  { intros p chunks Hc. unfold split_long.
    assert (HI : I (fold_left pack_sentence (sentences p) (chunks, []))).
    { apply fold_left_invariant; [exact Hc|].
      intros [c b] s _ H. unfold pack_sentence, I in *.
      destruct (600 <? length b + length s); simpl in *; [|done].
      by apply Forall_flush. }
    destruct (fold_left pack_sentence (sentences p) (chunks, [])) as [c b].
    by apply Forall_flush. }
  assert (HI : I (fold_left step_para (paragraphs text) ([], []))).
  { apply fold_left_invariant; [constructor|].
    intros [c b] p _ H. unfold step_para, I in *.
    destruct (800 <? length p); simpl in *.
    - apply Hpack. by apply Forall_flush.
    - destruct (length b + length p <? 100); simpl; [done|]. by apply Forall_flush. }
  destruct (fold_left step_para (paragraphs text) ([], [])) as [c b].
  by apply Forall_flush.
Qed.

End ChunkerFacts.

(** *** Paragraphs of ordinary length are kept whole *)

Section ShortParagraphs.

Local Abbreviation blank_line := [NL; NL].

(** The chunks the outer loop would return if the text ended here. *)
Definition emitted (st : list str * str) : list str := flush st.1 st.2.

Lemma join_snoc sep (l : list str) (p : str) :
  l <> [] -> join sep (l ++ [p]) = join sep l ++ sep ++ p.
Proof.
  induction l as [|q l IH]; [intros H; by destruct H|].
  intros _. destruct l as [|q' l]; [reflexivity|].
  change ((q :: q' :: l) ++ [p]) with (q :: ((q' :: l) ++ [p])).
  rewrite (join_cons sep q ((q' :: l) ++ [p])) by done.
  rewrite IH by done.
  rewrite (join_cons sep q (q' :: l)) by done. by rewrite <- !app_assoc.
Qed.

Lemma join_snoc_app sep (l : list str) (b x : str) :
  join sep (l ++ [b ++ x]) = join sep (l ++ [b]) ++ x.
Proof.
  destruct l as [|q l]; [done|].
  rewrite !join_snoc by done. by rewrite <- !app_assoc.
Qed.

Lemma step_para_emitted chunks buffer p :
  p <> [] -> length p <= 800 ->
  emitted (step_para (chunks, buffer) p)
  = if truthy buffer && (length buffer + length p <? 100)
    then chunks ++ [buffer ++ blank_line ++ p]
    else flush chunks buffer ++ [p].
Proof.
  intros Hp Hlen. unfold emitted, step_para.
  replace (800 <? length p) with false by (symmetry; apply Nat.ltb_ge; lia).
  destruct p as [|c p]; [done|].
  destruct (length buffer + length (c :: p) <? 100); destruct buffer as [|b buffer];
    done.
Qed.

Lemma chunk_short_paragraphs paras :
  Forall (fun p : str => p <> [] /\ length p <= 800) paras ->
  forall st seen,
    join blank_line (emitted st) = join blank_line seen ->
    (emitted st = [] <-> seen = []) ->
    join blank_line (emitted (fold_left step_para paras st))
    = join blank_line (seen ++ paras).
Proof.
  induction 1 as [|p paras [Hp Hlen] _ IH]; intros [chunks buffer] seen Hj He.
  - simpl. by rewrite app_nil_r.
  - cbn [fold_left]. replace (seen ++ p :: paras) with ((seen ++ [p]) ++ paras)
      by by rewrite <- app_assoc.
    pose proof (step_para_emitted chunks buffer p Hp Hlen) as Hstep.
    apply IH.
    + rewrite Hstep.
      destruct (truthy buffer && (length buffer + length p <? 100)) eqn:E.
      * apply andb_true_iff in E as [Hb _].
        assert (Hem : emitted (chunks, buffer) = chunks ++ [buffer])
          by (unfold emitted, flush; simpl; by rewrite Hb).
        rewrite Hem in Hj, He.
        assert (seen <> []).
        { intros Hs. apply He in Hs. by apply app_eq_nil in Hs as [_ ?]. }
        rewrite join_snoc_app, Hj. by rewrite join_snoc.
      * change (flush chunks buffer) with (emitted (chunks, buffer)).
        destruct (emitted (chunks, buffer)) as [|e es] eqn:Hem.
        -- assert (seen = []) as -> by by apply He. done.
        -- assert (seen <> []).
           { intros Hs. apply He in Hs. done. }
           rewrite !join_snoc by done. by rewrite Hj.
    + rewrite Hstep. split.
      * destruct (truthy buffer && _); intros E; by apply app_eq_nil in E as [_ ?].
      * intros E. by apply app_eq_nil in E as [_ ?].
Qed.

(** When no paragraph of the text is longer than 800 characters, the chunks
    joined by blank lines are the paragraphs joined by blank lines: chunking
    only groups paragraphs, in order, and loses nothing. *)
Theorem chunk_text_keeps_short_paragraphs text :
  Forall (fun p : str => length p <= 800) (paragraphs text) ->
  join blank_line (chunk_text text) = join blank_line (paragraphs text).
Proof.
  intros Hlen. unfold chunk_text, chunk_paragraphs.
  assert (Hall : Forall (fun p : str => p <> [] /\ length p <= 800) (paragraphs text)).
  { pose proof (paragraphs_starts_visible text) as Hv.
    rewrite Forall_forall in Hv, Hlen. apply Forall_forall. intros p Hp.
    split; [|by apply Hlen]. by destruct (Hv p Hp) as (c & r & -> & _). }
  pose proof (chunk_short_paragraphs _ Hall ([], []) [] eq_refl (conj (fun _ => eq_refl) (fun _ => eq_refl))) as H.
  unfold emitted in H.
  by destruct (fold_left step_para (paragraphs text) ([], [])) as [c b].
Qed.

Lemma chunk_text_keeps_short_paragraphs_witness :
  join blank_line (chunk_text (lit "Short line.

Another short line."))
  = join blank_line (paragraphs (lit "Short line.

Another short line.")).
Proof.
  apply chunk_text_keeps_short_paragraphs.
  vm_compute. repeat constructor.
Defined.

Lemma length_join_cons (b : str) (ps : list str) :
  length b <= length (join blank_line (b :: ps)).
Proof. destruct ps; simpl; [lia|]. rewrite length_app. lia. Qed.

Lemma merge_small_paragraphs ps :
  forall b : str,
    b <> [] ->
    length (join blank_line (b :: ps)) < 100 ->
    fold_left step_para ps ([], b) = ([], join blank_line (b :: ps)).
Proof.
  induction ps as [|p ps IH]; intros b Hb Hlen; [done|].
  cbn [fold_left]. rewrite join_cons in Hlen by done.
  pose proof (length_join_cons p ps) as Hp.
  rewrite !length_app in Hlen. cbn [length] in Hlen.
  unfold step_para at 2.
  replace (800 <? length p) with false by (symmetry; apply Nat.ltb_ge; lia).
  replace (length b + length p <? 100) with true by (symmetry; apply Nat.ltb_lt; lia).
  destruct b as [|c b]; [done|]. cbn [truthy].
  rewrite IH.
  - f_equal. rewrite (join_cons _ (c :: b)) by done.
    destruct ps as [|q ps]; [done|].
    rewrite !join_cons by done. by rewrite <- !app_assoc.
  - done.
  - destruct ps as [|q ps].
    + cbn [join] in *. rewrite !length_app. cbn [length] in *. lia.
    + rewrite join_cons by done. rewrite (join_cons _ p) in Hlen by done.
      rewrite !length_app in *. cbn [length] in *. lia.
Qed.

(** A text whose paragraphs, joined by blank lines, stay under 100 characters
    comes back as the single chunk of the paragraphs joined by blank lines. *)
Theorem chunk_text_small_text text :
  paragraphs text <> [] ->
  length (join blank_line (paragraphs text)) < 100 ->
  chunk_text text = [join blank_line (paragraphs text)].
Proof.
  intros Hne Hlen. unfold chunk_text, chunk_paragraphs.
  pose proof (paragraphs_starts_visible text) as Hv.
  destruct (paragraphs text) as [|p ps]; [done|].
  apply Forall_inv in Hv. destruct Hv as (c & r & -> & _).
  pose proof (length_join_cons (c :: r) ps) as Hp.
  cbn [fold_left]. unfold step_para at 2.
  replace (800 <? length (c :: r)) with false by (symmetry; apply Nat.ltb_ge; lia).
  replace (length [] + length (c :: r) <? 100) with true
    by (symmetry; apply Nat.ltb_lt; simpl in *; lia).
  cbn [truthy app]. rewrite merge_small_paragraphs by done.
  match goal with
  | |- flush [] ?j = _ =>
      assert (E : exists x y, j = x :: y) by (destruct ps; simpl; eauto);
      destruct E as (x & y & E); unfold flush; rewrite E
  end.
  reflexivity.
Qed.

Lemma chunk_text_small_text_witness :
  chunk_text (lit "Short line.

Another short line.")
  = [join blank_line (paragraphs (lit "Short line.

Another short line."))].
Proof.
  apply chunk_text_small_text; vm_compute; [discriminate|lia].
Defined.

End ShortParagraphs.

(** ** Further properties of the store and the worker *)

Section StoreFacts.

Variable uuid4 : nat -> uuid.

Local Abbreviation insert_chunks := (insert_chunks uuid4).

Definition count_null (cs : list chunk) : nat := length (List.filter unembedded cs).

Lemma count_null_app cs1 cs2 : count_null (cs1 ++ cs2) = count_null cs1 + count_null cs2.
Proof. unfold count_null. by rewrite List.filter_app, length_app. Qed.


End StoreFacts.

Section WorkerRun.

Variable emb : embedding.

Let dim := sentenceVectorDimension emb.

(** What a row keeps whatever the worker does: everything but the vector. *)
Definition row_identity (c : chunk) : Z * uuid * uuid * str :=
  (rowid c, chunk_id c, document_id c, text c).

Lemma sql_update_vector_identity db b id :
  List.map row_identity (chunks (sql_update_vector db b id)) = List.map row_identity (chunks db).
Proof.
  simpl. rewrite map_map. apply map_ext. intros c. by case_decide.
Qed.

(** The loop of the worker as an invariant rule: a property of the store and
    the count that every accepted write and every skip keep holds at the
    end. *)
Lemma embed_rows_invariant (I : database -> Z -> Prop) (rows : list (uuid * str)) :
  (forall db n id b, I db n -> (exists t, (id, t) ∈ rows) ->
     I (sql_update_vector db b id) (n + 1)%Z) ->
  forall db n, I db n ->
    exists db' n',
      fold_left (embed_row emb dim) rows (Some (db, n)) = Some (db', n') /\ I db' n'.
Proof.
  induction rows as [|[id t] rows IH]; intros Hstep db n HI; cbn [fold_left].
  - by exists db, n.
  - assert (Hrest : forall db n id b, I db n -> (exists t, (id, t) ∈ rows) ->
              I (sql_update_vector db b id) (n + 1)%Z).
    { intros db0 n0 id0 b0 H0 [t0 Hin]. apply Hstep; [done|]. exists t0. by right. }
    destruct (accepts dim (sentenceEmbeddingVector emb (embedding_input t))) eqn:E.
    + destruct (sentenceEmbeddingVector emb (embedding_input t)) as [v|] eqn:Ev;
        [|done]. apply accepts_spec in E as [Hne Hlen].
      rewrite (embed_row_writes emb dim db n (id, t) v Ev Hne Hlen).
      apply IH; [done|]. apply Hstep; [done|]. exists t. by left.
    + rewrite (embed_row_skips emb dim db n (id, t) E). by apply IH.
Qed.

Lemma select_unembedded_length db limit :
  length (select_unembedded db limit) = Nat.min limit (count_null (chunks db)).
Proof.
  unfold select_unembedded, count_null. by rewrite length_take, length_map.
Qed.

(** A worker, whether its model loads or not, changes vectors only. *)
Lemma worker_script_keeps_rows (db : database) (limit : nat) :
  documents (worker_script emb db limit).1.1 = documents db /\
  chunks_fts (worker_script emb db limit).1.1 = chunks_fts db /\
  List.map row_identity (chunks (worker_script emb db limit).1.1)
  = List.map row_identity (chunks db) /\
  (fts_in_sync db -> fts_in_sync (worker_script emb db limit).1.1).
Proof.
  unfold worker_script. destruct (loadWithError emb); [done|]. fold dim.
  destruct (embed_rows_invariant
              (fun db' _ =>
                 documents db' = documents db /\ chunks_fts db' = chunks_fts db /\
                 List.map row_identity (chunks db') = List.map row_identity (chunks db) /\
                 (fts_in_sync db -> fts_in_sync db'))
              (select_unembedded db limit)) with (db := db) (n := 0%Z)
    as (db' & n' & E & H).
  - intros db0 n0 id b (Hd & Hf & Hr & Hs) _. split; [done|]. split; [done|].
    split; [by rewrite sql_update_vector_identity|].
    intros H. by apply fts_in_sync_update_vector, Hs.
  - done.
  - by rewrite E.
Qed.

(** A worker whose model loaded leaves documents, index and every row's
    rowid, identifiers and text as they were, exits with status 0, and reports
    [processed] as the number of rows it selected, at most the limit and at
    most the rows awaiting a vector, and [embedded] between 0 and
    [processed]. *)
Theorem worker_reports_within_batch (db : database) (limit : nat) :
  loadWithError emb = None ->
  exists db' embedded processed,
    worker_script emb db limit = (db', 0%Z, Counts embedded processed) /\
    processed = Z.of_nat (Nat.min limit (count_null (chunks db))) /\
    (0 <= embedded <= processed)%Z /\
    documents db' = documents db /\ chunks_fts db' = chunks_fts db /\
    List.map row_identity (chunks db') = List.map row_identity (chunks db) /\
    (fts_in_sync db -> fts_in_sync db').
Proof.
  intros Hload. unfold worker_script. rewrite Hload. fold dim.
  set (rows := select_unembedded db limit).
  pose (I := fun (db' : database) (n : Z) =>
    documents db' = documents db /\ chunks_fts db' = chunks_fts db /\
    List.map row_identity (chunks db') = List.map row_identity (chunks db) /\
    (fts_in_sync db -> fts_in_sync db')).
  pose (J := fun (k : nat) (db' : database) (n : Z) => (0 <= n <= Z.of_nat k)%Z).
  assert (Hcount : forall rs db0 n0,
            exists db' n', fold_left (embed_row emb dim) rs (Some (db0, n0)) = Some (db', n')
                           /\ (n0 <= n' <= n0 + Z.of_nat (length rs))%Z).
  { induction rs as [|[id t] rs IH]; intros db0 n0; cbn [fold_left].
    - exists db0, n0. split; [done|simpl; lia].
    - destruct (embed_row_returns emb dim db0 n0 (id, t)) as (db1 & n1 & H1).
      assert (n0 <= n1 <= n0 + 1)%Z.
      { unfold embed_row in H1. destruct (accepts dim _).
        - destruct (pack dim _); [|done]. injection H1 as _ <-. lia.
        - injection H1 as _ <-. lia. }
      rewrite H1. destruct (IH db1 n1) as (db' & n' & H' & Hn').
      exists db', n'. split; [done|]. simpl length. lia. }
  destruct (embed_rows_invariant I rows) with (db := db) (n := 0%Z)
    as (db' & n' & Hfold & Hd & Hf & Hr & Hs).
  { intros db0 n0 id b (Hd & Hf & Hr & Hs) _. unfold I. split; [done|]. split; [done|].
    split; [by rewrite sql_update_vector_identity|].
    intros H. by apply fts_in_sync_update_vector, Hs. }
  { by unfold I. }
  destruct (Hcount rows db 0%Z) as (db'' & n'' & Hfold' & Hn).
  rewrite Hfold in Hfold'. injection Hfold' as <- <-.
  rewrite Hfold.
  assert (Hlen : length rows = Nat.min limit (count_null (chunks db)))
    by apply select_unembedded_length.
  rewrite Hlen in *. eexists db', n', _.
  split; [reflexivity|]. split; [reflexivity|]. split; [lia|done].
Qed.

End WorkerRun.

Lemma worker_reports_within_batch_witness :
  exists db' embedded processed,
    worker_script three_dim two_dim_db BATCH_SIZE = (db', 0%Z, Counts embedded processed) /\
    processed = Z.of_nat (Nat.min BATCH_SIZE (count_null (chunks two_dim_db))) /\
    (0 <= embedded <= processed)%Z /\
    documents db' = documents two_dim_db /\ chunks_fts db' = chunks_fts two_dim_db /\
    List.map row_identity (chunks db') = List.map row_identity (chunks two_dim_db) /\
    (fts_in_sync two_dim_db -> fts_in_sync db').
Proof.
  apply (worker_reports_within_batch three_dim two_dim_db BATCH_SIZE). reflexivity.
Defined.


(** *** Workers on a store whose chunk identifiers are unique *)

Section PrimaryKey.

Variable emb : embedding.

Let dim := sentenceVectorDimension emb.

(** The primary key of [chunks]: no two rows share an [id]. *)
Definition chunk_ids_unique (db : database) : Prop :=
  NoDup (List.map chunk_id (chunks db)).

Definition update_row (b : blob) (id : uuid) (c : chunk) : chunk :=
  if decide (chunk_id c = id) then set_vector b c else c.

Lemma update_row_chunk_id b id cs :
  List.map chunk_id (List.map (update_row b id) cs) = List.map chunk_id cs.
Proof.
  rewrite map_map. apply map_ext. intros c. unfold update_row. by case_decide.
Qed.

Lemma update_row_missing b id cs :
  ~ In id (List.map chunk_id cs) -> List.map (update_row b id) cs = cs.
Proof.
  induction cs as [|c cs IH]; simpl; [done|]. intros H.
  rewrite IH by tauto. unfold update_row. rewrite decide_False; [done|tauto].
Qed.

Lemma count_null_cons c cs :
  count_null (c :: cs) = (if unembedded c then 1 else 0) + count_null cs.
Proof. unfold count_null. simpl. by destruct (unembedded c). Qed.

(** On unique identifiers an update reaches one row. *)
Lemma update_row_embeds_one b id cs u :
  NoDup (List.map chunk_id cs) -> In u cs -> chunk_id u = id -> unembedded u = true ->
  count_null (List.map (update_row b id) cs) + 1 = count_null cs.
Proof.
  induction cs as [|c cs IH]; simpl; [done|]. intros Hnd Hin Hid Hu.
  apply NoDup_cons in Hnd as [Hc Hnd]. rewrite list_elem_of_In in Hc.
  rewrite !count_null_cons.
  destruct Hin as [->|Hin].
  - rewrite update_row_missing by by rewrite <- Hid.
    unfold update_row. rewrite decide_True by done. rewrite Hu. simpl. lia.
  - assert (chunk_id c <> id).
    { intros E. apply Hc. rewrite E, <- Hid. by apply in_map. }
    unfold update_row at 1. rewrite decide_False by done.
    specialize (IH Hnd Hin Hid Hu). lia.
Qed.

Lemma In_select_unembedded db limit r :
  In r (select_unembedded db limit) ->
  exists u, In u (chunks db) /\ chunk_id u = r.1 /\ unembedded u = true.
Proof.
  unfold select_unembedded. intros H.
  apply list_elem_of_In, (subseteq_take limit), list_elem_of_In in H.
  apply in_map_iff in H as (u & <- & Hu). apply filter_In in Hu as [Hu Hn].
  by exists u.
Qed.

Lemma NoDup_select_unembedded db limit :
  chunk_ids_unique db -> NoDup (List.map fst (select_unembedded db limit)).
Proof.
  unfold chunk_ids_unique, select_unembedded. intros H.
  rewrite <- firstn_map, map_map. simpl.
  eapply sublist_NoDup; [|apply sublist_take].
  by apply NoDup_map_filter.
Qed.

(** Vectors that were there before the loop are there after it. *)
Definition keeps_row (c c' : chunk) : Prop :=
  row_identity c' = row_identity c /\ (vector c <> None -> vector c' = vector c).

Lemma keeps_row_update b id cs cs' :
  Forall2 keeps_row cs cs' ->
  Forall (fun c => chunk_id c = id -> vector c = None) cs ->
  Forall2 keeps_row cs (List.map (update_row b id) cs').
Proof.
  induction 1 as [|c c' cs cs' [Hi Hv] _ IH]; intros Hall; simpl; constructor.
  - apply Forall_inv in Hall. unfold update_row. case_decide as E; [|done].
    split; [exact Hi|]. intros Hn. exfalso. apply Hn, Hall.
    unfold row_identity in Hi. congruence.
  - apply IH. by apply Forall_inv_tail in Hall.
Qed.

Lemma NoDup_map_identifies {A B} (f : A -> B) (l : list A) (x y : A) :
  NoDup (List.map f l) -> In x l -> In y l -> f x = f y -> x = y.
Proof.
  induction l as [|a l IH]; simpl; [done|]. intros Hnd Hx Hy E.
  apply NoDup_cons in Hnd as [Ha Hnd]. rewrite list_elem_of_In in Ha.
  destruct Hx as [->|Hx], Hy as [->|Hy]; [done| | |by apply IH].
  - exfalso. apply Ha. rewrite E. by apply in_map.
  - exfalso. apply Ha. rewrite <- E. by apply in_map.
Qed.

(** On a store with unique chunk identifiers a worker never replaces a vector
    that is already stored: every row that has a vector before the run has the
    same vector, rowid, identifiers and text after it. *)
Theorem worker_keeps_stored_vectors (db : database) (limit : nat) :
  chunk_ids_unique db ->
  Forall2 keeps_row (chunks db) (chunks (worker_script emb db limit).1.1).
Proof.
  intros Hpk.
  assert (Hrefl : Forall2 keeps_row (chunks db) (chunks db)).
  { apply Forall2_same_length_lookup_2; [done|]. intros i c c' H1 H2.
    rewrite H1 in H2. injection H2 as <-. by split. }
  unfold worker_script. destruct (loadWithError emb); [exact Hrefl|].
  destruct (embed_rows_invariant emb
              (fun db' _ => Forall2 keeps_row (chunks db) (chunks db'))
              (select_unembedded db limit)) with (db := db) (n := 0%Z)
    as (db' & n' & E & H); [|exact Hrefl|rewrite E; exact H].
  intros db0 n0 id b H0 [t Hin]. simpl. apply keeps_row_update; [exact H0|].
  apply Forall_forall. intros c Hc Hid.
  apply list_elem_of_In, In_select_unembedded in Hin as (u & Hu & Hui & Hun).
  simpl in Hui. assert (c = u) as ->.
  { eapply (NoDup_map_identifies chunk_id); eauto; [by apply list_elem_of_In|congruence]. }
  unfold unembedded in Hun. by destruct (vector u).
Qed.

(** Every text gets a vector of the model's dimension. *)
Definition always_embeds : Prop :=
  loadWithError emb = None /\
  forall t, exists v,
    sentenceEmbeddingVector emb t = Some v /\ v <> [] /\ length v = dim.

Lemma embed_selected_rows (Hgood : always_embeds) (rows : list (uuid * str)) :
  forall db n,
    chunk_ids_unique db -> NoDup (List.map fst rows) ->
    (forall r, In r rows ->
       exists u, In u (chunks db) /\ chunk_id u = r.1 /\ unembedded u = true) ->
    exists db',
      fold_left (embed_row emb dim) rows (Some (db, n))
      = Some (db', (n + Z.of_nat (length rows))%Z) /\
      count_null (chunks db') + length rows = count_null (chunks db) /\
      chunk_ids_unique db'.
Proof.
  destruct Hgood as [_ Hgood].
  induction rows as [|[id t] rows IH]; intros db n Hpk Hnd Hrows; cbn [fold_left].
  - exists db. split; [do 2 f_equal; simpl; lia|]. split; [simpl; lia|done].
  - destruct (Hgood (embedding_input t)) as (v & Hv & Hne & Hlen).
    rewrite (embed_row_writes emb dim db n (id, t) v Hv Hne Hlen). cbn [fst].
    set (b := List.map pack_f v).
    simpl in Hnd. apply NoDup_cons in Hnd as [Hid Hnd]. rewrite list_elem_of_In in Hid.
    destruct (Hrows (id, t)) as (u & Hu & Hui & Hun); [by left|]. simpl in Hui.
    pose proof (update_row_embeds_one b id (chunks db) u Hpk Hu Hui Hun) as Hcount.
    destruct (IH (sql_update_vector db b id) (n + 1)%Z) as (db' & Hfold & Hc & Hpk').
    + unfold chunk_ids_unique. simpl. fold (update_row b id).
      by rewrite update_row_chunk_id.
    + exact Hnd.
    + intros r Hr. destruct (Hrows r) as (w & Hw & Hwi & Hwn); [by right|].
      exists w. split; [|done]. simpl. fold (update_row b id).
      replace w with (update_row b id w) at 1; [by apply in_map|].
      unfold update_row. rewrite decide_False; [done|].
      intros E. apply Hid. rewrite <- E, Hwi. by apply in_map.
    + exists db'. rewrite Hfold. split; [do 2 f_equal; simpl length; lia|].
      split; [|done]. simpl in Hc. fold (update_row b id) in Hc. simpl length. lia.
Qed.

(** With a capability that embeds every text, on unique identifiers, a worker
    embeds all it selects: a full batch, or all the rows that were left. *)
Lemma run_worker_embeds_batch (Hgood : always_embeds) (db : database) :
  chunk_ids_unique db ->
  let m := Z.min (Z.of_nat BATCH_SIZE) (count_unembedded db) in
  exists db', run_worker emb db = (Completed 0 (Counts m m), db') /\
              count_unembedded db' = (count_unembedded db - m)%Z /\
              chunk_ids_unique db'.
Proof.
  intros Hpk m. unfold run_worker, worker_script.
  destruct Hgood as [Hload Hall]. rewrite Hload. fold dim.
  destruct (embed_selected_rows (conj Hload Hall) (select_unembedded db BATCH_SIZE) db 0%Z)
    as (db' & Hfold & Hc & Hpk').
  - exact Hpk.
  - by apply NoDup_select_unembedded.
  - intros r. apply In_select_unembedded.
  - rewrite Hfold. rewrite select_unembedded_length in *.
    assert (Hm : m = Z.of_nat (Nat.min BATCH_SIZE (count_null (chunks db)))).
    { unfold m, count_unembedded. fold (count_null (chunks db)). lia. }
    exists db'. rewrite <- Hm, Z.add_0_l. split; [done|]. split; [|done].
    unfold count_unembedded. fold (count_null (chunks db')) (count_null (chunks db)).
    lia.
Qed.

End PrimaryKey.

(** *** Whole runs of the backfill *)

Section BackfillRuns.

(** A property of the world that every worker keeps is kept by the loop. *)
Lemma loop_keeps_world {W : Type} (subprocess_run : W -> run_result * W)
    (P : W -> Prop) total :
  (forall w, P w -> P (subprocess_run w).2) ->
  forall fuel s e s',
    P (world s) -> loop subprocess_run fuel total s = Some (e, s') -> P (world s').
Proof.
  intros Hkeep. induction fuel as [|fuel IH]; intros s e s' Hs; cbn [loop].
  - destruct (done s <? total)%Z; [done|]. by intros [= _ <-].
  - destruct (done s <? total)%Z; [|by intros [= _ <-]].
    specialize (Hkeep (world s) Hs). unfold loop_body.
    destruct (subprocess_run (world s)) as [[rc out|] w]; simpl in Hkeep.
    + destruct (negb (rc =? 0)%Z).
      * cbn [retries]. destruct (_ >? 5)%Z; [by intros [= _ <-]|]. by apply IH.
      * destruct out as [k p| |]; try by intros [= _ <-].
        cbn [done]. destruct (p =? 0)%Z; [by intros [= _ <-]|]. by apply IH.
    + by intros [= _ <-].
Qed.

(** Whatever the capability does and however the run ends, the backfill
    leaves the documents, the index and every chunk's rowid, identifiers and
    text as they were; an index in step with the chunks stays in step. *)
Theorem backfill_changes_vectors_only emb fuel db e s :
  backfill emb fuel db = Some (e, s) ->
  documents (world s) = documents db /\
  chunks_fts (world s) = chunks_fts db /\
  List.map row_identity (chunks (world s)) = List.map row_identity (chunks db) /\
  (fts_in_sync db -> fts_in_sync (world s)).
Proof.
  pose (P := fun w : database =>
    documents w = documents db /\ chunks_fts w = chunks_fts db /\
    List.map row_identity (chunks w) = List.map row_identity (chunks db) /\
    (fts_in_sync db -> fts_in_sync w)).
  assert (Hkeep : forall w, P w -> P (run_worker emb w).2).
  { intros w (H1 & H2 & H3 & H4). unfold run_worker.
    destruct (worker_script_keeps_rows emb w BATCH_SIZE) as (H1' & H2' & H3' & H4').
    destruct (worker_script emb w BATCH_SIZE) as [[w' rc] out]. simpl in *.
    unfold P. rewrite H1', H2', H3'.
    split; [done|]. split; [done|]. split; [done|]. auto. }
  unfold backfill, main. destruct (count_unembedded db =? 0)%Z.
  - intros [= _ <-]. simpl. split; [done|]. split; [done|]. split; [done|]. auto.
  - intros H. apply (loop_keeps_world _ P _ Hkeep _ _ _ _) in H; [exact H|].
    simpl. unfold P. split; [done|]. split; [done|]. split; [done|]. auto.
Qed.

Lemma backfill_changes_vectors_only_witness :
  exists s,
    backfill three_dim 1 two_dim_db = Some (Drained, s) /\
    documents (world s) = documents two_dim_db /\
    chunks_fts (world s) = chunks_fts two_dim_db /\
    List.map row_identity (chunks (world s)) = List.map row_identity (chunks two_dim_db) /\
    (fts_in_sync two_dim_db -> fts_in_sync (world s)).
Proof.
  eexists. split; [vm_compute; reflexivity|].
  eapply (backfill_changes_vectors_only three_dim 1 two_dim_db Drained).
  vm_compute. reflexivity.
Defined.

(** With a capability that embeds every text and a store whose chunk
    identifiers are unique, the backfill reaches Stopped after
    [ceil(n / 2000)] dispatch cycles, [n] being the number of chunks without a
    vector, and leaves no chunk without a vector. *)
Theorem backfill_drains_store emb db fuel :
  always_embeds emb -> chunk_ids_unique db ->
  cycles_bound (count_unembedded db) <= fuel ->
  exists e s,
    backfill emb fuel db = Some (e, s) /\
    terminal_of e = Some Stopped /\
    count_unembedded (world s) = 0%Z /\
    done s = count_unembedded db /\
    dispatch_cycles (trace s) = cycles_bound (count_unembedded db).
Proof.
  intros Hgood Hpk Hfuel. unfold backfill, main.
  destruct (count_unembedded db =? 0)%Z eqn:E.
  - apply Z.eqb_eq in E. exists NothingToDo. eexists. split; [done|].
    rewrite E. by vm_compute.
  - destruct (loop_ideal count_unembedded (run_worker emb) chunk_ids_unique)
      with (total := count_unembedded db) (k := cycles_bound (count_unembedded db))
           (s := State 0%Z 0%Z db []) (fuel := fuel)
      as (s' & Hl & Hd & Hq & Ht).
    + intros w Hw. by apply run_worker_embeds_batch.
    + exact Hpk.
    + unfold count_unembedded. simpl. lia.
    + simpl. lia.
    + reflexivity.
    + exact Hfuel.
    + exists Drained, s'. simpl in Ht. by rewrite Ht.
Qed.

Lemma backfill_drains_store_witness :
  exists e s,
    backfill three_dim 1 two_dim_db = Some (e, s) /\
    terminal_of e = Some Stopped /\
    count_unembedded (world s) = 0%Z /\
    done s = count_unembedded two_dim_db /\
    dispatch_cycles (trace s) = cycles_bound (count_unembedded two_dim_db).
Proof.
  apply (backfill_drains_store three_dim two_dim_db 1).
  - split; [reflexivity|]. intros t. exists [double_1_0; double_0_5; double_0_1].
    split; [reflexivity|]. split; [discriminate|reflexivity].
  - unfold chunk_ids_unique. vm_compute.
    constructor; [intros H; apply list_elem_of_singleton in H; discriminate H|].
    constructor; [intros H; by apply elem_of_nil in H|constructor].
  - vm_compute. lia.
Defined.

(** When the model does not load, every worker prints the error payload and
    exits with status 1, so the orchestrator counts it as a crash: with chunks
    waiting, the run ends Aborted for too many failures after six workers and
    five sleeps, with the store untouched; the branch for a reported worker
    error is not the one taken. *)
Theorem load_failure_is_retried_as_crash emb db err fuel :
  loadWithError emb = Some err ->
  (0 < count_unembedded db)%Z ->
  5 < fuel ->
  backfill emb fuel db = Some (TooManyFailures, State 0%Z 6%Z db six_attempts).
Proof.
  intros Hload Hn Hfuel.
  assert (Hrun : forall w, run_worker emb w = (Completed 1 (ErrorPayload err), w)).
  { intros w. unfold run_worker, worker_script. by rewrite Hload. }
  assert (Hcrash : forall w, exists rc out w',
             run_worker emb w = (Completed rc out, w') /\ rc <> 0%Z).
  { intros w. exists 1%Z, (ErrorPayload err), w. by rewrite Hrun. }
  unfold backfill, main.
  replace (count_unembedded db =? 0)%Z with false by lia.
  destruct (loop_crashing (run_worker emb) Hcrash (count_unembedded db) 5
              (State 0%Z 0%Z db [])) as [_ H2]; [reflexivity|lia|exact Hn|].
  destruct (H2 fuel Hfuel) as (s' & Hl & Hd & Hr & Ht).
  assert (Hw : world s' = db).
  { apply (loop_keeps_world (run_worker emb) (fun w => w = db)
             (count_unembedded db)) with (fuel := fuel) (s := State 0%Z 0%Z db [])
             (e := TooManyFailures); [|done|done].
    intros w ->. by rewrite Hrun. }
  rewrite Hl. destruct s' as [d r w t]. simpl in *. by subst.
Qed.

Definition fails_to_load : embedding :=
  Embedding (Some (lit "no model")) 768 (fun _ => None).

Lemma load_failure_is_retried_as_crash_witness :
  backfill fails_to_load 6 one_chunk_db
  = Some (TooManyFailures, State 0%Z 6%Z one_chunk_db six_attempts).
Proof.
  apply (load_failure_is_retried_as_crash fails_to_load one_chunk_db (lit "no model") 6).
  - reflexivity.
  - vm_compute. reflexivity.
  - lia.
Defined.

(** What each ending of the loop tells, for a loop entered with at most five
    crashes in a row: Drained means the count was reached; the three breaks
    after a worker that exited with status 0 leave the crash counter at 0; too
    many failures means the counter stands at 6; and an uncaught timeout
    leaves the counter as the last turn found it, at most 5. *)
Theorem loop_endings {W : Type} (subprocess_run : W -> run_result * W) total fuel :
  forall s e s',
    (0 <= retries s <= 5)%Z ->
    loop subprocess_run fuel total s = Some (e, s') ->
    match e with
    | NothingToDo => False
    | Drained => (total <= done s')%Z /\ (0 <= retries s' <= 5)%Z
    | NoMoreWork | BadOutput | WorkerError => retries s' = 0%Z
    | TooManyFailures => retries s' = 6%Z
    | Uncaught => (0 <= retries s' <= 5)%Z
    end.
Proof.
  induction fuel as [|fuel IH]; intros s e s' Hr; cbn [loop].
  - destruct (done s <? total)%Z eqn:E; [done|]. intros [= <- <-].
    split; [lia|done].
  - destruct (done s <? total)%Z eqn:E; [|intros [= <- <-]; split; [lia|done]].
    unfold loop_body. destruct (subprocess_run (world s)) as [[rc out|] w].
    + destruct (negb (rc =? 0)%Z).
      * cbn [retries]. destruct (retries s + 1 >? 5)%Z eqn:E5.
        -- intros [= <- <-]. simpl. lia.
        -- intros H. apply IH in H; [done|]. simpl. lia.
      * destruct out as [k p| |]; try by intros [= <- <-].
        cbn [done]. destruct (p =? 0)%Z; [by intros [= <- <-]|].
        intros H. apply IH in H; [done|]. simpl. lia.
    + intros [= <- <-]. simpl. lia.
Qed.

Lemma loop_endings_witness :
  exists s',
    loop always_crash 6 1%Z (State 0%Z 0%Z 1%Z []) = Some (TooManyFailures, s') /\
    retries s' = 6%Z.
Proof.
  eexists. split; [vm_compute; reflexivity|].
  apply (loop_endings always_crash 1%Z 6 (State 0%Z 0%Z 1%Z []) TooManyFailures).
  - simpl. lia.
  - vm_compute. reflexivity.
Defined.

End BackfillRuns.

Lemma worker_keeps_stored_vectors_witness :
  Forall2 keeps_row (chunks two_dim_db)
          (chunks (worker_script three_dim two_dim_db BATCH_SIZE).1.1).
Proof.
  apply (worker_keeps_stored_vectors three_dim two_dim_db BATCH_SIZE).
  unfold chunk_ids_unique. vm_compute.
  constructor; [intros H; apply list_elem_of_singleton in H; discriminate H|].
  constructor; [intros H; by apply elem_of_nil in H|constructor].
Defined.

(** ** Further properties of the importers *)

Section ImporterRuns.

Variable uuid4 : nat -> uuid.
Variable clock : nat -> float.

Local Abbreviation insert_chunks := (insert_chunks uuid4).
Local Abbreviation import_file := (import_file uuid4 clock).
Local Abbreviation import_conversation := (import_conversation uuid4 clock).
Local Abbreviation import_claude_ai := (import_claude_ai uuid4 clock).
Local Abbreviation import_transcript := (import_transcript uuid4 clock).
Local Abbreviation import_claude_code := (import_claude_code uuid4 clock).

(** What a document says about its source. *)
Definition doc_summary (d : document) : str * str * option str * option float :=
  (filename d, source_type d, source_path d, source_mod_date d).






Lemma role_blocks_start_visible (messages : list (str * str)) :
  messages <> [] -> starts_visible (join [NL; NL] (List.map role_block messages)).
Proof.
  destruct messages as [|m ms]; [done|]. intros _.
  exists 91%N. cbn [List.map]. destruct (List.map role_block ms); cbn [join role_block];
    eexists; (split; [reflexivity|by vm_compute]).
Qed.

(** A transcript is imported exactly when its size can be read and is at most
    [MAX_FILE_SIZE], it parses, and it has at least [MIN_HUMAN_MESSAGES]
    messages of the role Human.  The check for an empty chunk list never turns
    such a transcript away: its text starts with a role tag. *)
Theorem importable_iff (f : jsonl_file) :
  importable f = true <->
  exists size messages,
    st_size f = Some size /\ (size <= MAX_FILE_SIZE)%Z /\
    parsed f = Some messages /\
    MIN_HUMAN_MESSAGES
    <= length (List.filter (fun m => bool_decide (m.1 = lit "Human")) messages).
Proof.
  unfold importable, chunks_to_import. split.
  - destruct (st_size f) as [size|]; [|done].
    destruct (size >? MAX_FILE_SIZE)%Z eqn:Es; [done|].
    destruct (parsed f) as [messages|]; [|done].
    destruct (_ <? MIN_HUMAN_MESSAGES) eqn:Eh; [done|]. intros _.
    exists size, messages. apply Nat.ltb_ge in Eh. repeat split; [lia|done].
  - intros (size & messages & -> & Hs & -> & Hh).
    replace (size >? MAX_FILE_SIZE)%Z with false by lia.
    replace (_ <? MIN_HUMAN_MESSAGES) with false by (symmetry; by apply Nat.ltb_ge).
    assert (Hne : messages <> []) by (intros ->; vm_compute in Hh; lia).
    pose proof (chunk_text_nonempty _ (role_blocks_start_visible messages Hne)) as Hc.
    by destruct (chunk_text _).
Qed.






(** [import_file] on a file of whitespace only changes nothing; on any other
    file it inserts one document with the file's path and name, followed by
    the chunks of the text, of which there is at least one. *)
Theorem import_file_blank_or_inserted (s : session) (f : file) :
  (Forall (fun c => isspace c = true) (file_text f) -> import_file s f = s) /\
  (~ Forall (fun c => isspace c = true) (file_text f) ->
   chunk_text (file_text f) <> [] /\
   List.map doc_summary (documents (conn (import_file s f)))
   = List.map doc_summary (documents (conn s))
     ++ [(file_name f, lit "file", Some (file_path f), None)] /\
   List.map text (chunks (conn (import_file s f)))
   = List.map text (chunks (conn s)) ++ chunk_text (file_text f)).
Proof.
  split.
  - intros H. unfold Importer.import_file, chunk_text.
    by rewrite (blank_text_paragraphs _ H).
  - intros H. assert (Hc : chunk_text (file_text f) <> [])
      by by apply visible_text_chunks.
    split; [done|]. split.
    + rewrite (import_file_inserts uuid4 clock s f Hc), map_app. done.
    + unfold Importer.import_file.
      destruct (chunk_text (file_text f)) as [|t ts] eqn:E; [done|].
      cbn [truthy negb]. by rewrite insert_chunks_texts.
Qed.

Lemma insert_chunks_in_sync s cs d :
  fts_in_sync (conn s) -> fts_in_sync (conn (insert_chunks s cs d)).
Proof.
  unfold Importer.insert_chunks. intros H.
  apply (fold_left_invariant _ (fun s : session => fts_in_sync (conn s))); [exact H|].
  intros s0 t _ H0. by apply fts_in_sync_insert_chunk.
Qed.

(** Each importer leaves the full-text index in step with the chunks when it
    finds it so. *)
Theorem importers_keep_fts_in_sync (s : session) :
  fts_in_sync (conn s) ->
  (forall f, fts_in_sync (conn (import_file s f))) /\
  (forall conversations, fts_in_sync (conn (import_claude_ai s conversations).1)) /\
  (forall fs, fts_in_sync (conn (import_claude_code s fs).1)).
Proof.
  intros Hs. split; [|split].
  - intros f. unfold Importer.import_file.
    destruct (negb (truthy (chunk_text (file_text f)))); [done|].
    by apply insert_chunks_in_sync.
  - intros conversations. unfold Importer.import_claude_ai.
    apply (fold_left_invariant _ (fun st : session * nat => fts_in_sync (conn st.1)));
      [done|].
    intros [s0 n0] c _ H. unfold Importer.import_conversation.
    destruct (negb (truthy (chunk_text (transcript c)))); [done|].
    by apply insert_chunks_in_sync.
  - intros fs. destruct (import_claude_code_loop uuid4 clock s fs) as [-> _].
    apply (fold_left_invariant _
             (fun st : session * nat * nat => fts_in_sync (conn st.1.1))); [done|].
    intros [[s0 i0] k0] f _ H. unfold Importer.import_transcript.
    destruct (chunks_to_import f); [|done]. by apply insert_chunks_in_sync.
Qed.

End ImporterRuns.




Lemma importers_keep_fts_in_sync_witness :
  (forall f, fts_in_sync (conn (import_file sample_uuid4 sample_clock (Session empty_db 0) f))) /\
  (forall conversations,
     fts_in_sync (conn (import_claude_ai sample_uuid4 sample_clock
                          (Session empty_db 0) conversations).1)) /\
  (forall fs, fts_in_sync (conn (import_claude_code sample_uuid4 sample_clock
                                   (Session empty_db 0) fs).1)).
Proof.
  apply (importers_keep_fts_in_sync sample_uuid4 sample_clock (Session empty_db 0)).
  apply fts_in_sync_empty.
Defined.

(** ** The transcript parser: [parse_cc_jsonl] *)

Module Transcript.

(** A decoded JSON value; the members of an object are kept in the order of
    the document. *)
Local Unset Elimination Schemes.
Inductive json :=
| JNull
| JBool (b : bool)
| JNumber (n : Z)
| JString (s : str)
| JArray (items : list json)
| JObject (members : list (str * json)).
Local Set Elimination Schemes.

(** [d.get(key)] on the dict [json.loads] builds: of several members with the
    same name the last one counts. *)
Definition dict_get (members : list (str * json)) (key : str) : option json :=
  snd <$> List.find (fun kv => bool_decide (kv.1 = key)) (rev members).

(** [v == s] for a string literal [s]. *)
Definition is_string (s : str) (v : option json) : bool :=
  match v with
  | Some (JString t) => bool_decide (t = s)
  | _ => false
  end.

(** One block of an assistant message: [Some (Some t)] when its text is kept,
    [Some None] when the block is passed over, [None] for the
    [AttributeError] of a [text] that has no [strip]. *)
Definition text_part (block : json) : option (option str) :=
  match block with
  | JObject members =>
      if is_string (lit "text") (dict_get members (lit "type")) then
        match default (JString []) (dict_get members (lit "text")) with
        | JString t => Some (if truthy (strip t) then Some t else None)
        | _ => None
        end
      else Some None
  | _ => Some None
  end.

(** [msg.get("content")]; [None] for the [AttributeError] of a message that is
    no dict. *)
Definition message_content (msg : json) : option (option json) :=
  match msg with
  | JObject members => Some (dict_get members (lit "content"))
  | _ => None
  end.

(** The messages one decoded line contributes; [None] for an exception. *)
Definition line_messages (obj : json) : option (list (str * str)) :=
  match obj with
  | JObject members =>
      let msg_type := dict_get members (lit "type") in
      let msg := default (JObject []) (dict_get members (lit "message")) in
      if is_string (lit "user") msg_type then
        match message_content msg with
        | None => None
        | Some (Some (JString content)) =>
            Some (if truthy (strip content) then [(lit "Human", content)] else [])
        | Some _ => Some []
        end
      else if is_string (lit "assistant") msg_type then
        match message_content msg with
        | None => None
        | Some (Some (JArray content)) =>
            match mapM text_part content with
            | None => None
            | Some parts =>
                let text_parts := omap id parts in
                Some (if truthy text_parts
                      then [(lit "Assistant", join [NL] text_parts)] else [])
            end
        | Some _ => Some []
        end
      else Some []
  | _ => None
  end.

Section Parser.

(** [json.loads]; [None] stands for [json.JSONDecodeError]. *)
Variable loads : str -> option json.

(** One turn of [for line in f]; [None] once an exception has left the
    function. *)
Definition parse_line (st : option (list (str * str))) (line : str)
    : option (list (str * str)) :=
  match st with
  | None => None
  | Some messages =>
      let line := strip line in
      if negb (truthy line) then Some messages
      else
        match loads line with
        | None => Some messages
        | Some obj =>
            match line_messages obj with
            | None => None
            | Some ms => Some (messages ++ ms)
            end
        end
  end.

Definition parse_cc_jsonl (lines : list str) : option (list (str * str)) :=
  fold_left parse_line lines (Some []).

End Parser.

End Transcript.

Import Transcript.

Section ParserFacts.

Variable loads : str -> option json.

Local Abbreviation parse_line := (parse_line loads).
Local Abbreviation parse_cc_jsonl := (parse_cc_jsonl loads).

Lemma lstrip_subset s c : c ∈ lstrip s -> c ∈ s.
Proof.
  induction s as [|a s IH]; simpl; [done|].
  destruct (isspace a); [|done]. intros H. right. by apply IH.
Qed.

Lemma strip_subset s c : c ∈ strip s -> c ∈ s.
Proof.
  unfold strip, rstrip. intros H.
  by apply lstrip_subset, elem_of_rev, lstrip_subset, elem_of_rev.
Qed.

Lemma strip_visible s : strip s <> [] -> exists c, c ∈ s /\ isspace c = false.
Proof.
  intros H. destruct (strip_starts_visible s H) as (c & r & E & Hc).
  exists c. split; [|done]. apply strip_subset. rewrite E. by left.
Qed.

Lemma text_part_kept block t :
  text_part block = Some (Some t) -> strip t <> [].
Proof.
  unfold text_part. destruct block as [| | | | |members]; try done.
  destruct (is_string _ _); [|done].
  destruct (default _ _) as [| | |t'| |]; try done.
  destruct (strip t') eqn:E; [done|]. intros [= <-]. by rewrite E.
Qed.

Lemma mapM_text_parts content parts :
  mapM text_part content = Some parts ->
  Forall (fun t : str => strip t <> []) (omap id parts).
Proof.
  intros H. apply mapM_Some in H. apply Forall_forall. intros t Ht.
  apply list_elem_of_omap in Ht as (o & Ho & Eo). simpl in Eo. subst o.
  induction H as [|b o bs os Hb _ IH]; [by apply elem_of_nil in Ho|].
  apply elem_of_cons in Ho as [<-|Ho]; [by eapply text_part_kept|by apply IH].
Qed.

Definition well_formed (m : str * str) : Prop :=
  (m.1 = lit "Human" \/ m.1 = lit "Assistant") /\ strip m.2 <> [].

Lemma line_messages_well_formed obj ms :
  line_messages obj = Some ms -> Forall well_formed ms.
Proof.
  unfold line_messages. destruct obj as [| | | | |members]; try done.
  destruct (is_string (lit "user") _).
  - destruct (message_content _) as [[[| | |content| |]|]|]; try done;
      try (intros [= <-]; constructor).
    destruct (strip content) eqn:E; intros [= <-]; [constructor|].
    constructor; [|constructor]. split; [by left|]. simpl. by rewrite E.
  - destruct (is_string (lit "assistant") _); [|intros [= <-]; constructor].
    destruct (message_content _) as [[[| | | |content|]|]|]; try done;
      try (intros [= <-]; constructor).
    destruct (mapM text_part content) as [parts|] eqn:E; [|done].
    apply mapM_text_parts in E.
    destruct (omap id parts) as [|t ts] eqn:Ep; intros [= <-]; [constructor|].
    constructor; [|constructor]. split; [by right|]. cbn [snd].
    apply Forall_inv in E. destruct (strip_visible t E) as (c & Hc & Hv).
    intros Hs. assert (Hin : c ∈ strip (join [NL] (t :: ts))).
    { apply strip_keeps; [|done]. apply elem_of_join. left. exists t.
      split; [by left|done]. }
    simpl in Hin, Hs. rewrite Hs in Hin. by apply elem_of_nil in Hin.
Qed.

Lemma parse_lines_none lines : fold_left parse_line lines None = None.
Proof. by induction lines. Qed.

(** The loop only ever appends to the messages it has. *)
Lemma parse_lines_from lines :
  forall messages,
    fold_left parse_line lines (Some messages)
    = (fun ms => messages ++ ms) <$> parse_cc_jsonl lines.
Proof.
  unfold Transcript.parse_cc_jsonl.
  induction lines as [|line lines IH]; intros messages; cbn [fold_left].
  - simpl. by rewrite app_nil_r.
  - unfold Transcript.parse_line at 2 4.
    destruct (negb (truthy (strip line))); [apply IH|].
    destruct (loads (strip line)) as [obj|]; [|apply IH].
    destruct (line_messages obj) as [ms|]; [|by rewrite !parse_lines_none].
    rewrite (IH (messages ++ ms)), (IH ([] ++ ms)).
    destruct (fold_left parse_line lines (Some [])) as [rest|]; simpl; [|done].
    by rewrite <- app_assoc.
Qed.

(** Every message [parse_cc_jsonl] returns has the role Human or Assistant
    and a text that is not blank. *)
Theorem parse_cc_jsonl_well_formed lines messages :
  parse_cc_jsonl lines = Some messages -> Forall well_formed messages.
Proof.
  unfold Transcript.parse_cc_jsonl.
  assert (H : forall acc, Forall well_formed acc ->
            fold_left parse_line lines (Some acc) = Some messages ->
            Forall well_formed messages); [|by apply H].
  induction lines as [|line lines IH]; intros acc Hacc; cbn [fold_left].
  - by intros [= <-].
  - unfold Transcript.parse_line at 2.
    destruct (negb (truthy (strip line))); [by apply IH|].
    destruct (loads (strip line)) as [obj|]; [|by apply IH].
    destruct (line_messages obj) as [ms|] eqn:E; [|by rewrite parse_lines_none].
    apply IH. apply Forall_app. split; [done|]. by eapply line_messages_well_formed.
Qed.

(** The parser works line by line: the messages of two runs of lines, one
    after the other, are the messages of the first followed by those of the
    second, and an exception in either is an exception of the whole.  A blank
    line, or one that is no JSON, adds nothing. *)
Theorem parse_cc_jsonl_app lines1 lines2 :
  parse_cc_jsonl (lines1 ++ lines2)
  = match parse_cc_jsonl lines1, parse_cc_jsonl lines2 with
    | Some ms1, Some ms2 => Some (ms1 ++ ms2)
    | _, _ => None
    end /\
  (forall line, strip line = [] \/ loads (strip line) = None ->
     parse_cc_jsonl (lines1 ++ line :: lines2) = parse_cc_jsonl (lines1 ++ lines2)).
Proof.
  assert (Happ : forall l1 l2, parse_cc_jsonl (l1 ++ l2)
    = match parse_cc_jsonl l1, parse_cc_jsonl l2 with
      | Some ms1, Some ms2 => Some (ms1 ++ ms2)
      | _, _ => None
      end).
  { intros l1 l2. unfold Transcript.parse_cc_jsonl at 1. rewrite fold_left_app.
    fold (parse_cc_jsonl l1). destruct (parse_cc_jsonl l1) as [ms1|].
    - rewrite parse_lines_from. by destruct (parse_cc_jsonl l2).
    - by rewrite parse_lines_none. }
  split; [apply Happ|]. intros line Hline.
  rewrite !Happ. replace (parse_cc_jsonl (line :: lines2)) with (parse_cc_jsonl lines2);
    [done|].
  assert (E : parse_line (Some []) line = Some []).
  { unfold Transcript.parse_line. destruct Hline as [->|Hl]; [done|].
    destruct (negb (truthy (strip line))); [done|]. by rewrite Hl. }
  unfold Transcript.parse_cc_jsonl. cbn [fold_left]. by rewrite E.
Qed.

End ParserFacts.

(** A decoder that knows one line, a user message. *)
Definition sample_loads (line : str) : option json :=
  if bool_decide (line = lit "U")
  then Some (JObject [(lit "type", JString (lit "user"));
                      (lit "message", JObject [(lit "content", JString (lit "hi"))])])
  else None.

Lemma parse_cc_jsonl_well_formed_witness :
  Forall well_formed [(lit "Human", lit "hi")].
Proof.
  apply (parse_cc_jsonl_well_formed sample_loads [lit "U"; lit "not json"; lit " "]).
  vm_compute. reflexivity.
Defined.

(** ** Progress, sentence packing, and undoing an import *)

Section Progress.

Context {W : Type}.
Variable query_total : W -> Z.
Variable subprocess_run : W -> run_result * W.

Hypothesis progresses :
  forall w, exists e p w',
    subprocess_run w = (Completed 0 (Counts e p), w') /\ (1 <= e)%Z.

Lemma loop_progresses total (n : nat) :
  forall (s : state W) fuel,
    Z.to_nat (total - done s) <= n -> n <= fuel ->
    exists e s',
      loop subprocess_run fuel total s = Some (e, s') /\
      (e = Drained \/ e = NoMoreWork) /\
      dispatch_cycles (trace s') <= dispatch_cycles (trace s) + n.
Proof.
  induction n as [|n IH]; intros s fuel Hn Hfuel.
  - exists Drained, s. rewrite loop_drained by lia. split; [done|]. split; [by left|lia].
  - destruct (decide (total <= done s)%Z) as [Hd|Hd].
    + exists Drained, s. rewrite loop_drained by lia. split; [done|]. split; [by left|lia].
    + destruct fuel as [|fuel]; [lia|].
      destruct (progresses (world s)) as (e & p & w' & Hrun & He).
      rewrite loop_unfold by lia. rewrite (loop_body_counts _ _ _ _ _ Hrun).
      destruct (p =? 0)%Z.
      * eexists NoMoreWork, _. split; [done|]. split; [by right|].
        simpl. rewrite dispatch_cycles_app. simpl. change (dispatch_cycles [Spawn]) with 1. lia.
      * destruct (IH (State (done s + e)%Z 0%Z w' (trace s ++ [Spawn])) fuel)
          as (e' & s' & Hl & He' & Hc); [simpl; lia|lia|].
        exists e', s'. split; [done|]. split; [done|].
        simpl in Hc. rewrite dispatch_cycles_app in Hc.
        change (dispatch_cycles [Spawn]) with 1 in Hc. lia.
Qed.

(** When every worker exits with status 0 and reports at least one chunk
    embedded, [main] reaches Stopped after at most as many dispatch cycles as
    chunks were waiting at the start. *)
Theorem progressing_workers_stop (w : W) (fuel : nat) :
  Z.to_nat (query_total w) <= fuel ->
  exists e s,
    main query_total subprocess_run fuel w = Some (e, s) /\
    terminal_of e = Some Stopped /\
    dispatch_cycles (trace s) <= Z.to_nat (query_total w).
Proof.
  intros Hfuel. unfold main. destruct (query_total w =? 0)%Z.
  - eexists NothingToDo, _. split; [done|]. split; [done|]. simpl.
    change (dispatch_cycles []) with 0. lia.
  - destruct (loop_progresses (query_total w) (Z.to_nat (query_total w))
                (State 0%Z 0%Z w []) fuel) as (e & s' & Hl & He & Hc);
      [simpl; lia|done|].
    exists e, s'. split; [done|]. split; [by destruct He as [->| ->]|].
    simpl in Hc. change (dispatch_cycles []) with 0 in Hc. lia.
Qed.

End Progress.

Definition one_per_run (w : Z) : run_result * Z :=
  (Completed 0 (Counts 1 1), (w - 1)%Z).

Lemma progressing_workers_stop_witness :
  exists e s,
    main remaining one_per_run 3 3%Z = Some (e, s) /\
    terminal_of e = Some Stopped /\
    dispatch_cycles (trace s) <= Z.to_nat (remaining 3%Z).
Proof.
  apply (progressing_workers_stop remaining one_per_run).
  - intros w. exists 1%Z, 1%Z, (w - 1)%Z. split; [reflexivity|lia].
  - vm_compute. lia.
Defined.

Section SentencePacking.

(** The chunks the inner loop would add if the paragraph ended here. *)
Definition packed (st : list str * str) : list str := flush st.1 st.2.

Lemma pack_sentence_packed chunks sent_buf sent :
  sent <> [] ->
  packed (pack_sentence (chunks, sent_buf) sent)
  = if truthy sent_buf && negb (600 <? length sent_buf + length sent)
    then chunks ++ [sent_buf ++ [SP] ++ sent]
    else flush chunks sent_buf ++ [sent].
Proof.
  intros Hs. unfold packed, pack_sentence. destruct sent as [|c sent]; [done|].
  destruct (600 <? length sent_buf + length (c :: sent)); destruct sent_buf as [|b sent_buf];
    done.
Qed.

Lemma pack_sentences_grouped ss :
  Forall (fun s : str => s <> []) ss ->
  forall st seen,
    join [SP] (packed st) = join [SP] seen ->
    (packed st = [] <-> seen = []) ->
    join [SP] (packed (fold_left pack_sentence ss st)) = join [SP] (seen ++ ss).
Proof.
  induction 1 as [|s ss Hs _ IH]; intros [chunks sent_buf] seen Hj He.
  - simpl. by rewrite app_nil_r.
  - cbn [fold_left]. replace (seen ++ s :: ss) with ((seen ++ [s]) ++ ss)
      by by rewrite <- app_assoc.
    pose proof (pack_sentence_packed chunks sent_buf s Hs) as Hstep.
    apply IH.
    + rewrite Hstep.
      destruct (truthy sent_buf && negb (600 <? length sent_buf + length s)) eqn:E.
      * apply andb_true_iff in E as [Hb _].
        assert (Hem : packed (chunks, sent_buf) = chunks ++ [sent_buf])
          by (unfold packed, flush; simpl; by rewrite Hb).
        rewrite Hem in Hj, He.
        assert (seen <> []).
        { intros E. apply He in E. by apply app_eq_nil in E as [_ ?]. }
        rewrite join_snoc_app, Hj. by rewrite join_snoc.
      * change (flush chunks sent_buf) with (packed (chunks, sent_buf)).
        destruct (packed (chunks, sent_buf)) as [|e es] eqn:Hem.
        -- assert (seen = []) as -> by by apply He. done.
        -- assert (seen <> []).
           { intros E'. apply He in E'. done. }
           rewrite !join_snoc by done. by rewrite Hj.
    + rewrite Hstep. split.
      * destruct (truthy sent_buf && _); intros E; by apply app_eq_nil in E as [_ ?].
      * intros E. by apply app_eq_nil in E as [_ ?].
Qed.

(** The sentence packing of a long paragraph only groups the sentence-like
    units: when none of them is empty, the chunks of the paragraph joined by
    single spaces are the units joined by single spaces, after the chunks that
    were there before. *)
Theorem split_long_groups_sentences (chunks : list str) (para : str) :
  Forall (fun s : str => s <> []) (sentences para) ->
  exists groups,
    split_long chunks para = chunks ++ groups /\
    join [SP] groups = join [SP] (sentences para).
Proof.
  intros Hne.
  assert (E1 : split_long chunks para
               = packed (fold_left pack_sentence (sentences para) (chunks, []))).
  { unfold split_long, packed. by destruct (fold_left _ _ _). }
  pose proof (pack_sentences_grouped (sentences para) Hne ([], []) []
                eq_refl (conj (fun _ => eq_refl) (fun _ => eq_refl))) as Hj.
  assert (Hshift : forall ss c b,
            packed (fold_left pack_sentence ss (c, b))
            = c ++ packed (fold_left pack_sentence ss ([], b))).
  { induction ss as [|s ss IH]; intros c b; cbn [fold_left].
    - unfold packed, flush. simpl. by destruct (truthy b); rewrite ?app_nil_r.
    - unfold pack_sentence at 2 4.
      destruct (600 <? length b + length s).
      + rewrite IH. rewrite (IH (flush [] b)). unfold flush. simpl.
        destruct (truthy b); simpl; [by rewrite <- app_assoc|done].
      + apply IH. }
  rewrite E1, Hshift. eexists. split; [reflexivity|exact Hj].
Qed.

Lemma split_long_groups_sentences_witness :
  exists groups,
    split_long [] packed_paragraph = [] ++ groups /\
    join [SP] groups = join [SP] (sentences packed_paragraph).
Proof.
  apply (split_long_groups_sentences [] packed_paragraph).
  vm_compute. repeat constructor; discriminate.
Defined.

End SentencePacking.

Section UndoImport.

Variable uuid4 : nat -> uuid.
Variable clock : nat -> float.

Local Abbreviation insert_chunks := (insert_chunks uuid4).
Local Abbreviation import_file := (import_file uuid4 clock).

Lemma filter_all {A} (p : A -> bool) (l : list A) :
  Forall (fun x => p x = true) l -> List.filter p l = l.
Proof. induction 1 as [|x l Hx _ IH]; cbn [List.filter]; [done|]. by rewrite Hx, IH. Qed.

Lemma next_rowid_app_le (cs new : list chunk) :
  (next_rowid cs <= next_rowid (cs ++ new))%Z.
Proof.
  unfold next_rowid. rewrite map_app.
  induction (List.map rowid cs) as [|r rs IH]; simpl.
  - induction (List.map rowid new); simpl; lia.
  - lia.
Qed.

(** The rows [insert_chunks] adds: all under the given document, with rowids
    beyond those of the table, and an index that differs from the old one
    under the new rowids only. *)
Lemma insert_chunks_rows cs d :
  forall s,
    exists new,
      chunks (conn (insert_chunks s cs d)) = chunks (conn s) ++ new /\
      Forall (fun c => document_id c = d /\ (next_rowid (chunks (conn s)) <= rowid c)%Z) new /\
      (forall r, r ∉ List.map rowid new ->
         chunks_fts (conn (insert_chunks s cs d)) !! r = chunks_fts (conn s) !! r).
Proof.
  unfold Importer.insert_chunks.
  induction cs as [|t cs IH]; intros s; cbn [fold_left].
  - exists []. rewrite app_nil_r. split; [done|]. split; [constructor|done].
  - set (s1 := Session (sql_insert_chunk (conn s) (uuid4 (drawn s)) d t) (S (drawn s))).
    destruct (IH s1) as (new & Hc & Hn & Hf).
    exists (Chunk (next_rowid (chunks (conn s))) (uuid4 (drawn s)) d t None :: new).
    split; [rewrite Hc; simpl; by rewrite <- app_assoc|]. split.
    + constructor; [simpl; split; [done|lia]|].
      eapply Forall_impl; [exact Hn|]. intros c [Hd Hr]. split; [done|].
      simpl in Hr. pose proof (next_rowid_app_le (chunks (conn s))
        [Chunk (next_rowid (chunks (conn s))) (uuid4 (drawn s)) d t None]). lia.
    + intros r Hr. rewrite Hf.
      * simpl. apply lookup_insert_ne. intros E. apply Hr. simpl. rewrite E. by left.
      * intros Hin. apply Hr. simpl. by right.
Qed.

(** Deleting the document that [import_file] has just inserted gives the
    store back as it was before the import, index included, when the index
    was in step with the chunks and the identifier drawn for the document is
    not in use. *)
Theorem delete_undoes_import_file (s : session) (f : file) :
  fts_in_sync (conn s) ->
  Forall (fun x => doc_id x <> uuid4 (drawn s)) (documents (conn s)) ->
  Forall (fun c => document_id c <> uuid4 (drawn s)) (chunks (conn s)) ->
  sql_delete_document (conn (import_file s f)) (uuid4 (drawn s)) = conn s.
Proof.
  intros [Hnd Hsync] Hdocs Hchunks. set (d := uuid4 (drawn s)) in *.
  assert (Hold_docs : List.filter (fun x => negb (bool_decide (doc_id x = d)))
                        (documents (conn s)) = documents (conn s)).
  { apply filter_all. eapply Forall_impl; [exact Hdocs|]. intros x Hx. simpl.
    by rewrite bool_decide_eq_false_2. }
  assert (Hold_keep : List.filter (fun c => negb (bool_decide (document_id c = d)))
                        (chunks (conn s)) = chunks (conn s)).
  { apply filter_all. eapply Forall_impl; [exact Hchunks|]. intros x Hx. simpl.
    by rewrite bool_decide_eq_false_2. }
  assert (Hold_gone : List.filter (fun c => bool_decide (document_id c = d))
                        (chunks (conn s)) = []).
  { apply filter_none. eapply Forall_impl; [exact Hchunks|]. intros x Hx. simpl.
    by rewrite bool_decide_eq_false_2. }
  unfold Importer.import_file.
  destruct (negb (truthy (chunk_text (file_text f)))).
  - unfold sql_delete_document. rewrite Hold_docs, Hold_keep, Hold_gone. simpl.
    by destruct (conn s).
  - fold d. set (s1 := Importer.insert_document clock _ d _ _ _ _).
    destruct (insert_chunks_rows (chunk_text (file_text f)) d s1) as (new & Hc & Hn & Hf).
    unfold sql_delete_document. rewrite Hc, insert_chunks_documents.
    unfold s1 at 1 2 3. cbn [conn Importer.insert_document sql_insert_document documents chunks].
    rewrite !List.filter_app, Hold_docs, Hold_keep, Hold_gone.
    assert (Hnew_gone : List.filter (fun c => bool_decide (document_id c = d)) new = new).
    { apply filter_all. eapply Forall_impl; [exact Hn|]. intros c [Hd _]. simpl.
      by rewrite bool_decide_eq_true_2. }
    assert (Hnew_keep : List.filter (fun c => negb (bool_decide (document_id c = d))) new = []).
    { apply filter_none. eapply Forall_impl; [exact Hn|]. intros c [Hd _]. simpl.
      by rewrite bool_decide_eq_true_2. }
    rewrite Hnew_gone, Hnew_keep. cbn [List.filter doc_id].
    rewrite bool_decide_eq_true_2 by done. cbn [negb app]. rewrite !app_nil_r.
    destruct (conn s) as [docs cs fts] eqn:Econn. f_equal.
    apply map_eq. intros r. rewrite lookup_chunks_ad.
    destruct (decide (r ∈ List.map rowid new)) as [Hin|Hout].
    + symmetry. destruct (fts !! r) as [t|] eqn:E; [|done]. exfalso.
      simpl in Hsync. apply Hsync in E as (c & Hcin & Hr & _).
      apply list_elem_of_In, in_map_iff in Hin as (c' & Hr' & Hc').
      rewrite Forall_forall in Hn. destruct (Hn c') as [_ Hge]; [by apply list_elem_of_In|].
      unfold s1 in Hge. simpl in Hge. rewrite ?Econn in Hge. simpl in Hge.
      pose proof (rowid_lt_next cs c Hcin). lia.
    + rewrite (Hf r Hout). unfold s1. simpl. by rewrite ?Econn.
Qed.

End UndoImport.

Lemma delete_undoes_import_file_witness :
  sql_delete_document
    (conn (import_file sample_uuid4 sample_clock (Session empty_db 0) note))
    (sample_uuid4 (drawn (Session empty_db 0)))
  = conn (Session empty_db 0).
Proof.
  apply (delete_undoes_import_file sample_uuid4 sample_clock (Session empty_db 0) note).
  - apply fts_in_sync_empty.
  - constructor.
  - constructor.
Defined.
